(** * go-mixpanel: the Mixpanel HTTP client, embedded and verified

    The development follows [mixpanel.go]: the [Mixpanel] struct, its
    constructor [NewMixpanelClient], [Track], the seven profile operations
    built on [engage], the alias operation, and the shared request routine
    [get].

    Go strings and byte slices are byte sequences and are modelled as
    [string] (a list of 8-bit [ascii] characters).  Go maps are reference
    objects: the ones the program writes through live in a store, and the
    program is written in a small state monad over that store. *)

From Stdlib Require Import Ascii String DecimalString DecimalZ.
From stdpp Require Import gmap strings list fin_maps sorting.

Local Open Scope Z_scope.

(** ** Go values *)

(** What an [interface{}] holds in this program, as [encoding/json] sees it
    (it reads through map references, so a map is given by its contents).
    A nil map and a nil slice are [VNil]: the encoder writes both as
    [null]. *)
#[warnings="-register-all"]
Inductive value : Type :=
| VNil
| VBool (b : bool)
| VInt (n : Z)
| VString (s : string)
| VSlice (l : list value)
| VMap (m : gmap string value)
| VChan.                        (* a value [encoding/json] cannot encode *)

(** Go's [error] values.  The two package-level errors are distinct
    objects; anything else comes from [encoding/json], [net/http] or
    [io]. *)
Inductive error : Type :=
| ErrUnexpectedTrackResponse
| ErrUnexpectedEngageResponse
| ErrForeign (msg : string).

Definition BASE_URL : string := "https://api.mixpanel.com".

Record Mixpanel : Type := MkMixpanel {
  Token : string;
  BaseURL : string;
  OverrideIPAddress : string
}.

(** ** The store *)

Definition loc : Type := positive.

(** A [*Mixpanel] or a map: [None] is [nil]. *)
Definition pointer : Type := option loc.

Record state : Type := MkState {
  clients : gmap loc Mixpanel;              (* the Mixpanel structs *)
  maps : gmap loc (gmap string value);      (* the map[string]interface{} objects *)
  requests : list string                    (* URLs given to http.Get, oldest first *)
}.

Inductive panic : Type :=
| NilDereference        (* invalid memory address or nil pointer dereference *)
| NilMapAssignment.     (* assignment to entry in nil map *)

Inductive outcome (A : Type) : Type :=
| Returned (a : A)
| Panicked (p : panic).
Arguments Returned {A} a.
Arguments Panicked {A} p.

Definition M (A : Type) : Type := state → outcome A * state.

#[global] Instance M_ret : MRet M := λ A a σ, (Returned a, σ).

#[global] Instance M_bind : MBind M := λ A B k c σ,
  match c σ with
  | (Returned a, σ') => k a σ'
  | (Panicked p, σ') => (Panicked p, σ')
  end.

(** [m.Token], [m.BaseURL], ...: reading a field through the receiver.  An
    address holding no struct does not arise in Go; it is treated as
    [nil]. *)
Definition load (m : pointer) : M Mixpanel :=
  λ σ, match m ≫= (clients σ !!.) with
       | Some c => (Returned c, σ)
       | None => (Panicked NilDereference, σ)
       end.

(** [&Mixpanel{...}] *)
Definition new_client (c : Mixpanel) : M pointer :=
  λ σ, let l := fresh (dom (clients σ)) in
       (Returned (Some l),
        MkState (<[l := c]> (clients σ)) (maps σ) (requests σ)).

(** [map[string]interface{}{...}] *)
Definition new_map (m : gmap string value) : M pointer :=
  λ σ, let l := fresh (dom (maps σ)) in
       (Returned (Some l),
        MkState (clients σ) (<[l := m]> (maps σ)) (requests σ)).

(** [p[k] = v] *)
Definition map_assign (p : pointer) (k : string) (v : value) : M unit :=
  λ σ, match p with
       | Some l =>
           match maps σ !! l with
           | Some m =>
               (Returned tt,
                MkState (clients σ) (<[l := <[k := v]> m]> (maps σ)) (requests σ))
           | None => (Panicked NilMapAssignment, σ)
           end
       | None => (Panicked NilMapAssignment, σ)
       end.

(** A map converted to [interface{}], as the encoder will read it: its
    contents, or [nil]. *)
Definition map_value (p : pointer) : M value :=
  λ σ, match p with
       | Some l =>
           match maps σ !! l with
           | Some m => (Returned (VMap m), σ)
           | None => (Returned VNil, σ)
           end
       | None => (Returned VNil, σ)
       end.

(** ** What the program takes from Go's library

    [json.Marshal], [base64.StdEncoding.EncodeToString], and [http.Get]
    followed by [ioutil.ReadAll] on the response body are not part of the
    repository: the program is parameterised by them. *)

Inductive http_result : Type :=
| GetError (err : error)
    (* http.Get returned an error *)
| GetResponse (responseBody : string) (err : option error).
    (* http.Get returned a response; ioutil.ReadAll on its body returns
       these bytes and this error *)

Class Library : Type := {
  json_Marshal : value → string + error;
  base64_EncodeToString : string → string;
  (* the answer to a request may depend on the requests made before it *)
  http_Get : list string → string → http_result
}.

(** A reader of the requests: decoders that undo the encoders.  The
    statements about what a request decodes to hold for any such pair.
    They exist when the encoders lose nothing; Go's [json.Marshal] loses
    one thing, the bytes of a string that are not well-formed UTF-8 (it
    writes U+FFFD for them), so for Go the contract is that of the encoder
    on well-formed text. *)
Class Decoders `{Library} : Type := {
  json_Unmarshal : string → option value;
  base64_DecodeString : string → option string;
  json_Unmarshal_Marshal v j :
    json_Marshal v = inl j → json_Unmarshal j = Some v;
  base64_Decode_Encode b :
    base64_DecodeString (base64_EncodeToString b) = Some b
}.

(** ** The program *)

Section program.
Context {lib : Library}.

(** [m.f] *)
Definition field {A} (f : Mixpanel → A) (m : pointer) : M A :=
  c ← load m; mret (f c).

(** [http.Get(url)] and [ioutil.ReadAll(res.Body)]; [res.Body.Close()]
    has no effect the program observes. *)
Definition fetch (url : string) : M http_result :=
  λ σ, (Returned (http_Get (requests σ) url),
        MkState (clients σ) (maps σ) (requests σ ++ [url])).

Definition get (m : pointer) (url : string) (data : gmap string value)
    : M (string * option error) :=
  match json_Marshal (VMap data) with
  | inr err => mret ("", Some err)
  | inl jsonedData =>
      let base64JSONData := base64_EncodeToString jsonedData in
      res ← fetch (url +:+ "?data=" +:+ base64JSONData);
      match res with
      | GetError err => mret ("", Some err)
      | GetResponse responseBody err => mret (responseBody, err)
      end
  end.

Definition Track (m : pointer) (event : string) (properties : pointer)
    : M (option error) :=
  let data : gmap string value := ∅ in
  let data := <["event" := VString event]> data in
  token ← field Token m;
  map_assign properties "token" (VString token);;
  props ← map_value properties;
  let data := <["properties" := props]> data in
  baseURL ← field BaseURL m;
  '(response, err) ← get m (baseURL +:+ "/track/") data;
  match err with
  | Some err => mret (Some err)
  | None =>
      if decide (response ≠ "1") then mret (Some ErrUnexpectedTrackResponse)
      else mret None
  end.

Definition engage (m : pointer) (distinctID op : string) (properties : value)
    : M (option error) :=
  let data : gmap string value := ∅ in
  token ← field Token m;
  let data := <["$token" := VString token]> data in
  let data := <["$distinct_id" := VString distinctID]> data in
  ip ← field OverrideIPAddress m;
  data ← (if decide (0 < String.length ip)%nat
          then ip ← field OverrideIPAddress m;
               mret (<["$ip" := VString ip]> data)
          else mret data);
  let data := <[op := properties]> data in
  baseURL ← field BaseURL m;
  '(response, err) ← get m (baseURL +:+ "/engage/") data;
  match err with
  | Some err => mret (Some err)
  | None =>
      if decide (response ≠ "1") then mret (Some ErrUnexpectedEngageResponse)
      else mret None
  end.

(** A [map[string]int] and a [[]string] converted to [interface{}]. *)
Definition int_map_value (properties : option (gmap string Z)) : value :=
  match properties with
  | Some m => VMap (VInt <$> m)
  | None => VNil
  end.

Definition strings_value (properties : option (list string)) : value :=
  match properties with
  | Some l => VSlice (VString <$> l)
  | None => VNil
  end.

Definition ProfileSet (m : pointer) (distinctID : string) (properties : pointer)
    : M (option error) :=
  props ← map_value properties; engage m distinctID "$set" props.

Definition ProfileSetOnce (m : pointer) (distinctID : string) (properties : pointer)
    : M (option error) :=
  props ← map_value properties; engage m distinctID "$set_once" props.

Definition ProfileAdd (m : pointer) (distinctID : string)
    (properties : option (gmap string Z)) : M (option error) :=
  engage m distinctID "$add" (int_map_value properties).

Definition ProfileAppend (m : pointer) (distinctID : string) (properties : pointer)
    : M (option error) :=
  props ← map_value properties; engage m distinctID "$append" props.

Definition ProfileUnion (m : pointer) (distinctID : string) (properties : pointer)
    : M (option error) :=
  props ← map_value properties; engage m distinctID "$union" props.

Definition ProfileUnset (m : pointer) (distinctID : string)
    (properties : option (list string)) : M (option error) :=
  engage m distinctID "$unset" (strings_value properties).

Definition ProfileDelete (m : pointer) (distinctID : string) : M (option error) :=
  engage m distinctID "$delete" (VString "").

Definition ProfileCreateAliasDistinctIdToAlias (m : pointer) (oldID newID : string)
    : M (option error) :=
  properties ← new_map {[ "distinct_id" := VString oldID;
                          "alias" := VString newID ]};
  Track m "$create_alias" properties.

End program.

(** [len(args) == 1], [len(args) > 1], and otherwise the nil pointer the
    variable [m] was declared with. *)
Definition NewMixpanelClient (args : list string) : M pointer :=
  match args with
  | [] => mret None
  | [token] => new_client (MkMixpanel token BASE_URL "")
  | token :: baseURL :: _ => new_client (MkMixpanel token baseURL "")
  end.

(** ** Calls

    One constructor per public operation, so that a statement can range
    over "every operation". *)
Inductive operation : Type :=
| CallTrack (event : string) (properties : pointer)
| CallProfileSet (distinctID : string) (properties : pointer)
| CallProfileSetOnce (distinctID : string) (properties : pointer)
| CallProfileAdd (distinctID : string) (properties : option (gmap string Z))
| CallProfileAppend (distinctID : string) (properties : pointer)
| CallProfileUnion (distinctID : string) (properties : pointer)
| CallProfileUnset (distinctID : string) (properties : option (list string))
| CallProfileDelete (distinctID : string)
| CallAlias (oldID newID : string).

Definition call {lib : Library} (m : pointer) (op : operation) : M (option error) :=
  match op with
  | CallTrack event properties => Track m event properties
  | CallProfileSet distinctID properties => ProfileSet m distinctID properties
  | CallProfileSetOnce distinctID properties => ProfileSetOnce m distinctID properties
  | CallProfileAdd distinctID properties => ProfileAdd m distinctID properties
  | CallProfileAppend distinctID properties => ProfileAppend m distinctID properties
  | CallProfileUnion distinctID properties => ProfileUnion m distinctID properties
  | CallProfileUnset distinctID properties => ProfileUnset m distinctID properties
  | CallProfileDelete distinctID => ProfileDelete m distinctID
  | CallAlias oldID newID => ProfileCreateAliasDistinctIdToAlias m oldID newID
  end.

(** The profile operations, and for each its key and the value it hands to
    [engage] in a given store. *)
Definition is_profile (op : operation) : bool :=
  match op with
  | CallTrack _ _ | CallAlias _ _ => false
  | _ => true
  end.

Definition profile_key (op : operation) : string :=
  match op with
  | CallProfileSet _ _ => "$set"
  | CallProfileSetOnce _ _ => "$set_once"
  | CallProfileAdd _ _ => "$add"
  | CallProfileAppend _ _ => "$append"
  | CallProfileUnion _ _ => "$union"
  | CallProfileUnset _ _ => "$unset"
  | CallProfileDelete _ => "$delete"
  | CallTrack _ _ | CallAlias _ _ => ""
  end.

Definition profile_keys : list string :=
  ["$set"; "$set_once"; "$add"; "$append"; "$union"; "$unset"; "$delete"].

Definition stored (σ : state) (p : pointer) : value :=
  match p ≫= (maps σ !!.) with
  | Some m => VMap m
  | None => VNil
  end.

Definition profile_id (op : operation) : string :=
  match op with
  | CallProfileSet distinctID _ | CallProfileSetOnce distinctID _
  | CallProfileAdd distinctID _ | CallProfileAppend distinctID _
  | CallProfileUnion distinctID _ | CallProfileUnset distinctID _
  | CallProfileDelete distinctID => distinctID
  | CallTrack _ _ | CallAlias _ _ => ""
  end.

Definition profile_value (σ : state) (op : operation) : value :=
  match op with
  | CallProfileSet _ p | CallProfileSetOnce _ p
  | CallProfileAppend _ p | CallProfileUnion _ p => stored σ p
  | CallProfileAdd _ properties => int_map_value properties
  | CallProfileUnset _ properties => strings_value properties
  | CallProfileDelete _ => VString ""
  | CallTrack _ _ | CallAlias _ _ => VNil
  end.

(** The error an operation answers an unexpected response body with, and
    the path it requests. *)
Definition response_error (op : operation) : error :=
  if is_profile op then ErrUnexpectedEngageResponse else ErrUnexpectedTrackResponse.

Definition path (op : operation) : string :=
  if is_profile op then "/engage/" else "/track/".

(** ** The steps of an operation

    What each operation has built when it calls [get], the store at that
    point, and what it makes of the answer. *)

(** The state [get] leaves behind when it sends [url]. *)
Definition sent (url : string) (σ : state) : state :=
  MkState (clients σ) (maps σ) (requests σ ++ [url]).

(** What [get] returns for an answer of the transport. *)
Definition received (res : http_result) : string * option error :=
  match res with
  | GetError err => ("", Some err)
  | GetResponse responseBody err => (responseBody, err)
  end.

(** What [Track] and [engage] make of the pair [get] returns. *)
Definition conclude (unexpected : error) (r : string * option error)
    : option error :=
  match r.2 with
  | Some err => Some err
  | None => if decide (r.1 ≠ "1") then Some unexpected else None
  end.

(** The map [engage] has built when it calls [get]. *)
Definition engage_data (c : Mixpanel) (distinctID op : string)
    (properties : value) : gmap string value :=
  let data := <["$distinct_id" := VString distinctID]>
                (<["$token" := VString (Token c)]> ∅) in
  <[op := properties]>
    (if decide (0 < String.length (OverrideIPAddress c))%nat
     then <["$ip" := VString (OverrideIPAddress c)]> data else data).

(** The map [Track] has built when it calls [get]. *)
Definition track_data (event : string) (props : value) : gmap string value :=
  <["properties" := props]> (<["event" := VString event]> ∅).

(** The store after [properties["token"] = token]. *)
Definition assigned (q : loc) (m : gmap string value) (σ : state) : state :=
  MkState (clients σ) (<[q := m]> (maps σ)) (requests σ).

(** The map an operation hands to [get], for the client [c] its receiver
    points to, when called in store [σ]. *)
Definition request_data (c : Mixpanel) (σ : state) (op : operation)
    : gmap string value :=
  match op with
  | CallTrack event properties =>
      track_data event
        (VMap (<["token" := VString (Token c)]>
                 (default ∅ (properties ≫= (maps σ !!.)))))
  | CallAlias oldID newID =>
      track_data "$create_alias"
        (VMap (<["token" := VString (Token c)]>
                 {[ "distinct_id" := VString oldID; "alias" := VString newID ]}))
  | _ => engage_data c (profile_id op) (profile_key op) (profile_value σ op)
  end.

(** The store in which it does so. *)
Definition prepared (c : Mixpanel) (σ : state) (op : operation) : state :=
  match op with
  | CallTrack event (Some q) =>
      assigned q (<["token" := VString (Token c)]> (default ∅ (maps σ !! q))) σ
  | CallAlias oldID newID =>
      let q := fresh (dom (maps σ)) in
      let properties : gmap string value :=
        {[ "distinct_id" := VString oldID; "alias" := VString newID ]} in
      assigned q (<["token" := VString (Token c)]> properties)
        (MkState (clients σ) (<[q := properties]> (maps σ)) (requests σ))
  | _ => σ
  end.

(** Whether a call reaches [get]: all do, except [Track] on a map that is
    not there. *)
Definition reaches_get (σ : state) (op : operation) : Prop :=
  match op with
  | CallTrack _ properties => is_Some (properties ≫= (maps σ !!.))
  | _ => True
  end.

#[global] Instance reaches_get_dec σ op : Decision (reaches_get σ op).
Proof. destruct op; apply _. Defined.

(** ** A reference implementation of the library

    The encoders, written out so that the program can be run: Base64 with
    the standard alphabet and padding (RFC 4648), which is what
    [base64.StdEncoding] is, and a JSON encoder for [value] that writes
    what [json.Marshal] writes (compact, object keys in byte order, [<],
    [>], [&] and control characters escaped).  Bytes above 127 are copied
    as they are. *)

Module Base64.

Definition encodeStd : string :=
  "ABCDEFGHIJKLMNOPQRSTUVWXYZabcdefghijklmnopqrstuvwxyz0123456789+/".

Definition padChar : ascii := "="%char.

(** Six bits, the most significant first. *)
Inductive sextet : Type := Sextet (b5 b4 b3 b2 b1 b0 : bool).

Definition sextet_index (s : sextet) : nat :=
  let 'Sextet b5 b4 b3 b2 b1 b0 := s in
  (32 * Nat.b2n b5 + 16 * Nat.b2n b4 + 8 * Nat.b2n b3
   + 4 * Nat.b2n b2 + 2 * Nat.b2n b1 + Nat.b2n b0)%nat.

Definition index_sextet (n : nat) : sextet :=
  Sextet (Nat.testbit n 5) (Nat.testbit n 4) (Nat.testbit n 3)
         (Nat.testbit n 2) (Nat.testbit n 1) (Nat.testbit n 0).

Definition enc (s : sextet) : ascii :=
  default "A"%char (String.get (sextet_index s) encodeStd).

Fixpoint position (c : ascii) (s : string) : option nat :=
  match s with
  | EmptyString => None
  | String c' s' => if Ascii.eqb c c' then Some 0%nat else S <$> position c s'
  end.

Definition dec (c : ascii) : option sextet :=
  index_sextet <$> position c encodeStd.

(** Three bytes are four sextets. *)
Definition split3 (a b c : ascii) : sextet * sextet * sextet * sextet :=
  let 'Ascii a0 a1 a2 a3 a4 a5 a6 a7 := a in
  let 'Ascii b0 b1 b2 b3 b4 b5 b6 b7 := b in
  let 'Ascii c0 c1 c2 c3 c4 c5 c6 c7 := c in
  (Sextet a7 a6 a5 a4 a3 a2, Sextet a1 a0 b7 b6 b5 b4,
   Sextet b3 b2 b1 b0 c7 c6, Sextet c5 c4 c3 c2 c1 c0).

Definition join4 (w x y z : sextet) : ascii * ascii * ascii :=
  let 'Sextet a7 a6 a5 a4 a3 a2 := w in
  let 'Sextet a1 a0 b7 b6 b5 b4 := x in
  let 'Sextet b3 b2 b1 b0 c7 c6 := y in
  let 'Sextet c5 c4 c3 c2 c1 c0 := z in
  (Ascii a0 a1 a2 a3 a4 a5 a6 a7, Ascii b0 b1 b2 b3 b4 b5 b6 b7,
   Ascii c0 c1 c2 c3 c4 c5 c6 c7).

Definition zero : ascii := Ascii false false false false false false false false.

Fixpoint EncodeToString (src : string) : string :=
  match src with
  | EmptyString => EmptyString
  | String a EmptyString =>
      let '(w, x, _, _) := split3 a zero zero in
      String (enc w) (String (enc x) (String padChar (String padChar EmptyString)))
  | String a (String b EmptyString) =>
      let '(w, x, y, _) := split3 a b zero in
      String (enc w) (String (enc x) (String (enc y) (String padChar EmptyString)))
  | String a (String b (String c rest)) =>
      let '(w, x, y, z) := split3 a b c in
      String (enc w) (String (enc x) (String (enc y) (String (enc z)
        (EncodeToString rest))))
  end.

Fixpoint DecodeString (s : string) : option string :=
  match s with
  | EmptyString => Some EmptyString
  | String cw (String cx (String cy (String cz rest))) =>
      w ← dec cw; x ← dec cx;
      if Ascii.eqb cz padChar then
        match rest with
        | EmptyString =>
            if Ascii.eqb cy padChar then
              Some (String (join4 w x (index_sextet 0) (index_sextet 0)).1.1 EmptyString)
            else
              y ← dec cy;
              let '(a, b, _) := join4 w x y (index_sextet 0) in
              Some (String a (String b EmptyString))
        | _ => None
        end
      else
        y ← dec cy; z ← dec cz;
        let '(a, b, c) := join4 w x y z in
        String a <$> (String b <$> (String c <$> DecodeString rest))
  | _ => None
  end.

End Base64.

Module JSON.

Definition quote : ascii := "034"%char.
Definition backslash : ascii := "\"%char.

Definition hex (n : N) : ascii :=
  default "0"%char (String.get (N.to_nat n) "0123456789abcdef").

Definition unhex (c : ascii) : option N :=
  let n := N_of_ascii c in
  if bool_decide (48 ≤ n ≤ 57)%N then Some (n - 48)%N
  else if bool_decide (97 ≤ n ≤ 102)%N then Some (n - 87)%N
  else if bool_decide (65 ≤ n ≤ 70)%N then Some (n - 55)%N
  else None.

(** One byte of a string, as the encoder writes it between quotes. *)
Definition escape_char (c : ascii) : string :=
  let n := N_of_ascii c in
  if Ascii.eqb c quote then String backslash (String quote EmptyString)
  else if Ascii.eqb c backslash then String backslash (String backslash EmptyString)
  else if Ascii.eqb c "010" then "\n"
  else if Ascii.eqb c "013" then "\r"
  else if Ascii.eqb c "009" then "\t"
  else if bool_decide (n < 32)%N || Ascii.eqb c "<" || Ascii.eqb c ">" || Ascii.eqb c "&"
  then "\u00" +:+ String (hex (n / 16)) (String (hex (n mod 16)) EmptyString)
  else String c EmptyString.

Fixpoint escape (s : string) : string :=
  match s with
  | EmptyString => EmptyString
  | String c s' => escape_char c +:+ escape s'
  end.

Definition quoted (s : string) : string :=
  String quote (escape s +:+ String quote EmptyString).

Definition itoa (n : Z) : string := NilEmpty.string_of_int (Z.to_int n).

(** The elements of an array and the members of an object, up to and
    including the closing bracket. *)
Fixpoint elements (ss : list string) : string :=
  match ss with
  | [] => "]"
  | s :: ss' => s +:+ match ss' with [] => "]" | _ => "," +:+ elements ss' end
  end.

Fixpoint members (kss : list (string * string)) : string :=
  match kss with
  | [] => "}"
  | (k, s) :: kss' =>
      quoted k +:+ ":" +:+ s +:+
      match kss' with [] => "}" | _ => "," +:+ members kss' end
  end.

Definition key_le {A} (x y : string * A) : Prop := String.leb x.1 y.1.

#[global] Instance key_le_dec {A} (x y : string * A) : Decision (key_le x y).
Proof. unfold key_le. apply _. Defined.

Definition member {A} (kv : string * option A) : option (string * A) :=
  (kv.1 ,.) <$> kv.2.

(** [json.Marshal]: compact, object keys in byte order. *)
Fixpoint Marshal (v : value) : option string :=
  match v with
  | VNil => Some "null"
  | VBool true => Some "true"
  | VBool false => Some "false"
  | VInt n => Some (itoa n)
  | VString s => Some (quoted s)
  | VSlice l => ss ← mapM Marshal l; Some ("[" +:+ elements ss)
  | VMap m =>
      kss ← mapM member (merge_sort key_le (map_to_list (Marshal <$> m)));
      Some ("{" +:+ members kss)
  | VChan => None
  end.

(** *** The decoder *)

Definition is_number_char (c : ascii) : bool :=
  Ascii.eqb c "-" || bool_decide (48 ≤ N_of_ascii c ≤ 57)%N.

(** The longest prefix made of number characters, and what follows it. *)
Fixpoint span_number (s : string) : string * string :=
  match s with
  | EmptyString => (EmptyString, EmptyString)
  | String c s' =>
      if is_number_char c
      then let '(tok, rest) := span_number s' in (String c tok, rest)
      else (EmptyString, s)
  end.

Definition atoi (tok : string) : option Z :=
  Z.of_int <$> NilEmpty.int_of_string tok.

(** [strip p s]: [s] without its prefix [p]. *)
Fixpoint strip (p s : string) : option string :=
  match p, s with
  | EmptyString, _ => Some s
  | String a p', String b s' => if Ascii.eqb a b then strip p' s' else None
  | _, _ => None
  end.

(** The character an escape sequence with this letter stands for. *)
Definition unescape_char (e : ascii) : option ascii :=
  if Ascii.eqb e quote then Some quote
  else if Ascii.eqb e backslash then Some backslash
  else if Ascii.eqb e "/" then Some "/"%char
  else if Ascii.eqb e "b" then Some "008"%char
  else if Ascii.eqb e "f" then Some "012"%char
  else if Ascii.eqb e "n" then Some "010"%char
  else if Ascii.eqb e "r" then Some "013"%char
  else if Ascii.eqb e "t" then Some "009"%char
  else None.

(** The text of a string after its opening quote: the string, and what
    follows the closing quote.  Of the [\u] escapes only those of one byte
    are read. *)
Fixpoint unescape (s : string) : option (string * string) :=
  match s with
  | EmptyString => None
  | String c rest =>
      if Ascii.eqb c quote then Some (EmptyString, rest)
      else if Ascii.eqb c backslash then
        match rest with
        | EmptyString => None
        | String e rest =>
            if Ascii.eqb e "u" then
              match rest with
              | String z1 (String z2 (String h (String l rest))) =>
                  if Ascii.eqb z1 "0" && Ascii.eqb z2 "0" then
                    h ← unhex h; l ← unhex l;
                    '(str, rest) ← unescape rest;
                    Some (String (ascii_of_N (16 * h + l)) str, rest)
                  else None
              | _ => None
              end
            else
              c ← unescape_char e;
              '(str, rest) ← unescape rest;
              Some (String c str, rest)
        end
      else
        '(str, rest) ← unescape rest;
        Some (String c str, rest)
  end.

(** A value at the head of [s], and what follows it. *)
Fixpoint parse (fuel : nat) (s : string) {struct fuel} : option (value * string) :=
  match fuel, s with
  | S fuel, String c rest =>
      if is_number_char c then
        let '(tok, rest) := span_number s in
        n ← atoi tok; Some (VInt n, rest)
      else if Ascii.eqb c "n" then rest ← strip "ull" rest; Some (VNil, rest)
      else if Ascii.eqb c "t" then rest ← strip "rue" rest; Some (VBool true, rest)
      else if Ascii.eqb c "f" then rest ← strip "alse" rest; Some (VBool false, rest)
      else if Ascii.eqb c quote then
        '(str, rest) ← unescape rest; Some (VString str, rest)
      else if Ascii.eqb c "[" then
        match parse_elements fuel rest with
        | Some (l, rest) => Some (VSlice l, rest)
        | None => rest ← strip "]" rest; Some (VSlice [], rest)
        end
      else if Ascii.eqb c "{" then
        match parse_members fuel rest with
        | Some (kvs, rest) => Some (VMap (list_to_map (reverse kvs)), rest)
        | None => rest ← strip "}" rest; Some (VMap ∅, rest)
        end
      else None
  | _, _ => None
  end
with parse_elements (fuel : nat) (s : string) {struct fuel}
    : option (list value * string) :=
  match fuel with
  | S fuel =>
      '(v, rest) ← parse fuel s;
      match rest with
      | String c rest =>
          if Ascii.eqb c "," then
            '(vs, rest) ← parse_elements fuel rest; Some (v :: vs, rest)
          else if Ascii.eqb c "]" then Some ([v], rest)
          else None
      | EmptyString => None
      end
  | O => None
  end
with parse_members (fuel : nat) (s : string) {struct fuel}
    : option (list (string * value) * string) :=
  match fuel with
  | S fuel =>
      rest ← strip (String quote EmptyString) s;
      '(k, rest) ← unescape rest;
      rest ← strip ":" rest;
      '(v, rest) ← parse fuel rest;
      match rest with
      | String c rest =>
          if Ascii.eqb c "," then
            '(kvs, rest) ← parse_members fuel rest; Some ((k, v) :: kvs, rest)
          else if Ascii.eqb c "}" then Some ([(k, v)], rest)
          else None
      | EmptyString => None
      end
  | O => None
  end.

(** [json.Unmarshal] into an [interface{}]: the whole text is one value. *)
Definition Unmarshal (s : string) : option value :=
  match parse (S (String.length s)) s with
  | Some (v, EmptyString) => Some v
  | _ => None
  end.

Fixpoint all_number (s : string) : bool :=
  match s with
  | EmptyString => true
  | String c s' => is_number_char c && all_number s'
  end.

(** What may follow a number: the end of the text, or a character that is
    not part of a number. *)
Definition delimited (rest : string) : Prop :=
  match rest with
  | EmptyString => True
  | String c _ => is_number_char c = false
  end.

End JSON.

(** The library with these encoders, over a given transport. *)
Definition reference (transport : list string → string → http_result) : Library := {|
  json_Marshal v :=
    match JSON.Marshal v with
    | Some s => inl s
    | None => inr (ErrForeign "json: unsupported type")
    end;
  base64_EncodeToString := Base64.EncodeToString;
  http_Get := transport
|}.

(** ** A sample run

    A transport that answers every request the same way, a client with an
    override address, and a store holding that client and one properties
    map. *)
Definition stub (res : http_result) : list string → string → http_result :=
  λ _ _, res.

Definition sample_client : Mixpanel := MkMixpanel "tok" BASE_URL "10.0.0.1".

Definition sample_store : state :=
  MkState {[ 1%positive := sample_client ]}
          {[ 1%positive := {[ "plan" := VString "pro" ]} ]}
          [].

(** ** The earlier version of the program

    The second part of [mixpanel.go]: the client has no override address,
    [engage] never sends [$ip], and the operations go by other names.  It
    runs on a store of its own clients. *)
Module Earlier.

Record Mixpanel : Type := MkMixpanel {
  Token : string;
  BaseURL : string
}.

Record state : Type := MkState {
  clients : gmap loc Mixpanel;
  maps : gmap loc (gmap string value);
  requests : list string
}.

Definition M (A : Type) : Type := state → outcome A * state.

#[global] Instance M_ret : MRet M := λ A a σ, (Returned a, σ).

#[global] Instance M_bind : MBind M := λ A B k c σ,
  match c σ with
  | (Returned a, σ') => k a σ'
  | (Panicked p, σ') => (Panicked p, σ')
  end.

Definition load (m : pointer) : M Mixpanel :=
  λ σ, match m ≫= (clients σ !!.) with
       | Some c => (Returned c, σ)
       | None => (Panicked NilDereference, σ)
       end.

Definition new_client (c : Mixpanel) : M pointer :=
  λ σ, let l := fresh (dom (clients σ)) in
       (Returned (Some l),
        MkState (<[l := c]> (clients σ)) (maps σ) (requests σ)).

Definition new_map (m : gmap string value) : M pointer :=
  λ σ, let l := fresh (dom (maps σ)) in
       (Returned (Some l),
        MkState (clients σ) (<[l := m]> (maps σ)) (requests σ)).

Definition map_assign (p : pointer) (k : string) (v : value) : M unit :=
  λ σ, match p with
       | Some l =>
           match maps σ !! l with
           | Some m =>
               (Returned tt,
                MkState (clients σ) (<[l := <[k := v]> m]> (maps σ)) (requests σ))
           | None => (Panicked NilMapAssignment, σ)
           end
       | None => (Panicked NilMapAssignment, σ)
       end.

Definition map_value (p : pointer) : M value :=
  λ σ, match p with
       | Some l =>
           match maps σ !! l with
           | Some m => (Returned (VMap m), σ)
           | None => (Returned VNil, σ)
           end
       | None => (Returned VNil, σ)
       end.

Section program.
Context {lib : Library}.

Definition field {A} (f : Mixpanel → A) (m : pointer) : M A :=
  c ← load m; mret (f c).

Definition fetch (url : string) : M http_result :=
  λ σ, (Returned (http_Get (requests σ) url),
        MkState (clients σ) (maps σ) (requests σ ++ [url])).

Definition get (m : pointer) (url : string) (data : gmap string value)
    : M (string * option error) :=
  match json_Marshal (VMap data) with
  | inr err => mret ("", Some err)
  | inl jsonedData =>
      let base64JSONData := base64_EncodeToString jsonedData in
      res ← fetch (url +:+ "?data=" +:+ base64JSONData);
      match res with
      | GetError err => mret ("", Some err)
      | GetResponse responseBody err => mret (responseBody, err)
      end
  end.

Definition Track (m : pointer) (event : string) (properties : pointer)
    : M (option error) :=
  let data : gmap string value := ∅ in
  let data := <["event" := VString event]> data in
  token ← field Token m;
  map_assign properties "token" (VString token);;
  props ← map_value properties;
  let data := <["properties" := props]> data in
  baseURL ← field BaseURL m;
  '(response, err) ← get m (baseURL +:+ "/track/") data;
  match err with
  | Some err => mret (Some err)
  | None =>
      if decide (response ≠ "1") then mret (Some ErrUnexpectedTrackResponse)
      else mret None
  end.

Definition engage (m : pointer) (distinctID op : string) (properties : value)
    : M (option error) :=
  let data : gmap string value := ∅ in
  token ← field Token m;
  let data := <["$token" := VString token]> data in
  let data := <["$distinct_id" := VString distinctID]> data in
  let data := <[op := properties]> data in
  baseURL ← field BaseURL m;
  '(response, err) ← get m (baseURL +:+ "/engage/") data;
  match err with
  | Some err => mret (Some err)
  | None =>
      if decide (response ≠ "1") then mret (Some ErrUnexpectedEngageResponse)
      else mret None
  end.

Definition CreateProfile (m : pointer) (distinctID : string) (properties : pointer)
    : M (option error) :=
  props ← map_value properties; engage m distinctID "$set" props.

Definition SetPropertiesOnProfileOnce (m : pointer) (distinctID : string)
    (properties : pointer) : M (option error) :=
  props ← map_value properties; engage m distinctID "$set_once" props.

Definition IncrementPropertiesOnProfile (m : pointer) (distinctID : string)
    (properties : option (gmap string Z)) : M (option error) :=
  engage m distinctID "$add" (int_map_value properties).

Definition AppendPropertiesOnProfile (m : pointer) (distinctID : string)
    (properties : pointer) : M (option error) :=
  props ← map_value properties; engage m distinctID "$append" props.

Definition UnionPropertiesOnProfile (m : pointer) (distinctID : string)
    (properties : pointer) : M (option error) :=
  props ← map_value properties; engage m distinctID "$union" props.

Definition UnsetPropertiesOnProfile (m : pointer) (distinctID : string)
    (properties : option (list string)) : M (option error) :=
  engage m distinctID "$unset" (strings_value properties).

Definition DeleteProfile (m : pointer) (distinctID : string) : M (option error) :=
  engage m distinctID "$delete" (VString "").

Definition Alias (m : pointer) (oldID newID : string) : M (option error) :=
  properties ← new_map {[ "distinct_id" := VString oldID;
                          "alias" := VString newID ]};
  Track m "$create_alias" properties.

(** The operation of this version that a call stands for. *)
Definition call (m : pointer) (op : operation) : M (option error) :=
  match op with
  | CallTrack event properties => Track m event properties
  | CallProfileSet distinctID properties => CreateProfile m distinctID properties
  | CallProfileSetOnce distinctID properties =>
      SetPropertiesOnProfileOnce m distinctID properties
  | CallProfileAdd distinctID properties =>
      IncrementPropertiesOnProfile m distinctID properties
  | CallProfileAppend distinctID properties =>
      AppendPropertiesOnProfile m distinctID properties
  | CallProfileUnion distinctID properties =>
      UnionPropertiesOnProfile m distinctID properties
  | CallProfileUnset distinctID properties =>
      UnsetPropertiesOnProfile m distinctID properties
  | CallProfileDelete distinctID => DeleteProfile m distinctID
  | CallAlias oldID newID => Alias m oldID newID
  end.

End program.

Definition NewMixpanelClient (args : list string) : M pointer :=
  match args with
  | [] => mret None
  | [token] => new_client (MkMixpanel token BASE_URL)
  | token :: baseURL :: _ => new_client (MkMixpanel token baseURL)
  end.

End Earlier.

(** An earlier client as a client of the later version: no override
    address is set. *)
Definition later (c : Earlier.Mixpanel) : Mixpanel :=
  MkMixpanel (Earlier.Token c) (Earlier.BaseURL c) "".

Definition later_state (σ : Earlier.state) : state :=
  MkState (later <$> Earlier.clients σ) (Earlier.maps σ) (Earlier.requests σ).

Definition later_result {A} (r : outcome A * Earlier.state) : outcome A * state :=
  (r.1, later_state r.2).

(** The sample store of the earlier version. *)
Definition earlier_sample_client : Earlier.Mixpanel :=
  Earlier.MkMixpanel "tok" BASE_URL.

Definition earlier_sample_store : Earlier.state :=
  Earlier.MkState {[ 1%positive := earlier_sample_client ]}
                  {[ 1%positive := {[ "plan" := VString "pro" ]} ]}
                  [].

(** ** Strings *)

Lemma append_nil (t : string) : EmptyString +:+ t = t.
Proof. reflexivity. Qed.

Lemma append_cons c (s t : string) : String c s +:+ t = String c (s +:+ t).
Proof. reflexivity. Qed.

Lemma append_nil_r (s : string) : s +:+ EmptyString = s.
Proof. induction s as [|c s IH]; [done|]. by rewrite append_cons, IH. Qed.

Lemma append_assoc (s t u : string) : (s +:+ t) +:+ u = s +:+ (t +:+ u).
Proof. induction s as [|c s IH]; [done|]. by rewrite !append_cons, IH. Qed.

Lemma length_append (s t : string) :
  String.length (s +:+ t) = (String.length s + String.length t)%nat.
Proof. induction s as [|c s IH]; [done|]. rewrite append_cons. simpl. by rewrite IH. Qed.

(** ** How the operations run *)

Section running.
Context {lib : Library}.

Lemma bind_run {A B} (c : M A) (k : A → M B) σ :
  (c ≫= k) σ = match c σ with
               | (Returned a, σ') => k a σ'
               | (Panicked p, σ') => (Panicked p, σ')
               end.
Proof. reflexivity. Qed.

Lemma field_run {A} (f : Mixpanel → A) l c σ :
  clients σ !! l = Some c → field f (Some l) σ = (Returned (f c), σ).
Proof. intros Hc. unfold field, load. rewrite bind_run. simpl. by rewrite Hc. Qed.

Lemma field_panics {A} (f : Mixpanel → A) m σ :
  m ≫= (clients σ !!.) = None → field f m σ = (Panicked NilDereference, σ).
Proof. intros Hc. unfold field, load. rewrite bind_run. by rewrite Hc. Qed.

Lemma get_run m url data σ :
  get m url data σ =
    match json_Marshal (VMap data) with
    | inr err => (Returned ("", Some err), σ)
    | inl j =>
        let u := url +:+ "?data=" +:+ base64_EncodeToString j in
        (Returned (received (http_Get (requests σ) u)), sent u σ)
    end.
Proof.
  unfold get. destruct (json_Marshal (VMap data)) as [j|err]; [|done].
  rewrite bind_run. unfold fetch. simpl.
  by destruct (http_Get _ _).
Qed.

Lemma engage_run l c distinctID op properties σ :
  clients σ !! l = Some c →
  engage (Some l) distinctID op properties σ =
    match get (Some l) (BaseURL c +:+ "/engage/")
            (engage_data c distinctID op properties) σ with
    | (Returned r, σ') => (Returned (conclude ErrUnexpectedEngageResponse r), σ')
    | (Panicked p, σ') => (Panicked p, σ')
    end.
Proof.
  intros Hc. unfold engage, engage_data.
  rewrite bind_run, (field_run _ _ _ _ Hc).
  rewrite bind_run, (field_run _ _ _ _ Hc).
  rewrite bind_run.
  destruct (decide (0 < String.length (OverrideIPAddress c))%nat).
  - rewrite bind_run, (field_run _ _ _ _ Hc). simpl.
    rewrite bind_run, (field_run _ _ _ _ Hc).
    rewrite bind_run.
    destruct (get _ _ _ _) as [[[response [err|]]|p] σ']; simpl; try done.
    unfold conclude; simpl. by destruct (decide _).
  - simpl.
    rewrite bind_run, (field_run _ _ _ _ Hc).
    rewrite bind_run.
    destruct (get _ _ _ _) as [[[response [err|]]|p] σ']; simpl; try done.
    unfold conclude; simpl. by destruct (decide _).
Qed.

Lemma engage_panics m distinctID op properties σ :
  m ≫= (clients σ !!.) = None →
  engage m distinctID op properties σ = (Panicked NilDereference, σ).
Proof. intros Hm. unfold engage. by rewrite bind_run, field_panics. Qed.

Lemma Track_run l c q props event σ :
  clients σ !! l = Some c →
  maps σ !! q = Some props →
  let props' := <["token" := VString (Token c)]> props in
  Track (Some l) event (Some q) σ =
    match get (Some l) (BaseURL c +:+ "/track/")
            (track_data event (VMap props')) (assigned q props' σ) with
    | (Returned r, σ') => (Returned (conclude ErrUnexpectedTrackResponse r), σ')
    | (Panicked p, σ') => (Panicked p, σ')
    end.
Proof.
  intros Hc Hq props'. unfold Track, track_data.
  rewrite bind_run, (field_run _ _ _ _ Hc).
  rewrite bind_run. unfold map_assign at 1. rewrite Hq.
  rewrite bind_run. unfold map_value at 1. cbn [maps].
  rewrite lookup_insert_eq.
  rewrite bind_run, (field_run _ l c) by done.
  rewrite bind_run. fold props'. fold (assigned q props' σ).
  destruct (get _ _ _ _) as [[[response [err|]]|p] σ']; simpl; try done.
  unfold conclude; simpl. by destruct (decide _).
Qed.

Lemma Track_panics_nil_client m event properties σ :
  m ≫= (clients σ !!.) = None →
  Track m event properties σ = (Panicked NilDereference, σ).
Proof. intros Hm. unfold Track. by rewrite bind_run, field_panics. Qed.

Lemma Track_panics_nil_map l c event properties σ :
  clients σ !! l = Some c →
  properties ≫= (maps σ !!.) = None →
  Track (Some l) event properties σ = (Panicked NilMapAssignment, σ).
Proof.
  intros Hc Hq. unfold Track.
  rewrite bind_run, (field_run _ _ _ _ Hc).
  rewrite bind_run. unfold map_assign.
  destruct properties as [q|]; simpl in *; [by rewrite Hq|done].
Qed.

End running.

Section calls.
Context {lib : Library}.

Lemma map_value_run p σ : map_value p σ = (Returned (stored σ p), σ).
Proof.
  unfold map_value, stored. destruct p as [q|]; simpl; [|done].
  by destruct (maps σ !! q).
Qed.

(** Every call that reaches [get] is that call of [get], and what
    [conclude] makes of its result. *)
Lemma call_run op l c σ :
  clients σ !! l = Some c →
  reaches_get σ op →
  call (Some l) op σ =
    match get (Some l) (BaseURL c +:+ path op) (request_data c σ op)
            (prepared c σ op) with
    | (Returned r, σ') => (Returned (conclude (response_error op) r), σ')
    | (Panicked p, σ') => (Panicked p, σ')
    end.
Proof.
  intros Hc Hop. destruct op as [event [q|]| d p| d p| d p| d p| d p| d p| d|o n];
    simpl in Hop; try (by destruct Hop);
    cbn [call request_data prepared path response_error is_profile].
  - destruct Hop as [props Hq]. simpl in Hq.
    rewrite (Track_run l c q props) by done. simpl. by rewrite Hq.
  - unfold ProfileSet. rewrite bind_run, map_value_run. by apply engage_run.
  - unfold ProfileSetOnce. rewrite bind_run, map_value_run. by apply engage_run.
  - by apply engage_run.
  - unfold ProfileAppend. rewrite bind_run, map_value_run. by apply engage_run.
  - unfold ProfileUnion. rewrite bind_run, map_value_run. by apply engage_run.
  - by apply engage_run.
  - by apply engage_run.
  - unfold ProfileCreateAliasDistinctIdToAlias. rewrite bind_run.
    unfold new_map at 1. cbv zeta.
    set (q := fresh (dom (maps σ))).
    set (properties := ({[ "distinct_id" := VString o; "alias" := VString n ]}
                          : gmap string value)).
    rewrite (Track_run l c q properties); [done..|].
    simpl. by rewrite lookup_insert_eq.
Qed.

(** A call on a receiver that points to no client panics at its first
    field access and leaves the store as it was. *)
Lemma call_panics_nil_client op m σ :
  m ≫= (clients σ !!.) = None →
  ∃ σ', call m op σ = (Panicked NilDereference, σ') ∧
        clients σ' = clients σ ∧ requests σ' = requests σ.
Proof.
  intros Hm. destruct op; cbn [call];
    try (eexists; split; [by apply engage_panics|done]);
    try (eexists; split; [by apply Track_panics_nil_client|done]).
  all: unfold ProfileSet, ProfileSetOnce, ProfileAppend, ProfileUnion;
    rewrite bind_run, map_value_run;
    eexists; split; [by apply engage_panics|done].
Qed.

Lemma prepared_clients c σ op : clients (prepared c σ op) = clients σ.
Proof. by destruct op as [? [?|]| | | | | | | |]. Qed.

Lemma prepared_requests c σ op : requests (prepared c σ op) = requests σ.
Proof. by destruct op as [? [?|]| | | | | | | |]. Qed.

(** The three ways a call that reaches [get] can end. *)
Lemma call_cases op l c σ :
  clients σ !! l = Some c →
  reaches_get σ op →
  let url j := BaseURL c +:+ path op +:+ "?data=" +:+ base64_EncodeToString j in
  match json_Marshal (VMap (request_data c σ op)) with
  | inr err => call (Some l) op σ = (Returned (Some err), prepared c σ op)
  | inl j =>
      call (Some l) op σ =
        (Returned (conclude (response_error op)
                     (received (http_Get (requests σ) (url j)))),
         sent (url j) (prepared c σ op))
  end.
Proof.
  intros Hc Hop url. rewrite (call_run op l c σ Hc Hop), get_run.
  destruct (json_Marshal _) as [j|err]; [|done].
  cbv zeta. rewrite prepared_requests. unfold url.
  by rewrite append_assoc.
Qed.

End calls.

(** ** The reference decoders undo the reference encoders *)

Section base64_facts.
Import Base64.

Lemma dec_enc s : dec (enc s) = Some s.
Proof. by destruct s as [[] [] [] [] [] []]. Qed.

Lemma enc_not_pad s : Ascii.eqb (enc s) padChar = false.
Proof. by destruct s as [[] [] [] [] [] []]. Qed.

Lemma join4_split3 a b c :
  let '(w, x, y, z) := split3 a b c in join4 w x y z = (a, b, c).
Proof. by destruct a, b, c. Qed.

Lemma string_ind3 (P : string → Prop) :
  P EmptyString →
  (∀ a, P (String a EmptyString)) →
  (∀ a b, P (String a (String b EmptyString))) →
  (∀ a b c rest, P rest → P (String a (String b (String c rest)))) →
  ∀ s, P s.
Proof.
  intros H0 H1 H2 H3. fix IH 1.
  intros [|a [|b [|c rest]]]; [done..|]. apply H3, IH.
Qed.

Lemma DecodeString_EncodeToString src :
  DecodeString (EncodeToString src) = Some src.
Proof.
  induction src as [|a|a b|a b c rest IH] using string_ind3.
  - done.
  - destruct a. cbn -[dec enc padChar].
    rewrite dec_enc; cbn -[dec enc padChar]. by rewrite dec_enc.
  - destruct a, b. cbn -[dec enc padChar Ascii.eqb].
    rewrite dec_enc; cbn -[dec enc padChar Ascii.eqb].
    rewrite dec_enc; cbn -[dec enc padChar Ascii.eqb].
    rewrite enc_not_pad, dec_enc. by cbn.
  - destruct a, b, c. cbn -[dec enc padChar Ascii.eqb].
    rewrite dec_enc; cbn -[dec enc padChar Ascii.eqb].
    rewrite dec_enc; cbn -[dec enc padChar Ascii.eqb].
    rewrite enc_not_pad, dec_enc; cbn -[dec enc padChar Ascii.eqb].
    rewrite dec_enc; cbn -[dec enc padChar Ascii.eqb].
    rewrite IH. by cbn.
Qed.

End base64_facts.

Section json_facts.
Import JSON.

Lemma unescape_escape_char c tail :
  unescape (escape_char c +:+ tail) =
    '(str, rest) ← unescape tail; Some (String c str, rest).
Proof. by destruct c as [[] [] [] [] [] [] [] []]. Qed.

Lemma unescape_escape s rest :
  unescape (escape s +:+ String quote rest) = Some (s, rest).
Proof.
  induction s as [|c s IH]; [done|].
  cbn [escape]. by rewrite append_assoc, unescape_escape_char, IH.
Qed.

Lemma all_number_uint d : all_number (NilEmpty.string_of_uint d) = true.
Proof. induction d; simpl; auto. Qed.

Lemma all_number_itoa n : all_number (itoa n) = true.
Proof.
  unfold itoa. destruct (Z.to_int n); simpl; auto using all_number_uint.
Qed.

Lemma itoa_nonempty n : itoa n ≠ EmptyString.
Proof.
  unfold itoa. destruct n as [|p|p]; [done| |done].
  simpl. pose proof (DecimalPos.Unsigned.to_uint_nonnil p) as Hp.
  by destruct (Pos.to_uint p).
Qed.

Lemma atoi_itoa n : atoi (itoa n) = Some n.
Proof. unfold atoi, itoa. rewrite NilEmpty.isi. simpl. by rewrite DecimalZ.of_to. Qed.

Lemma span_number_append s rest :
  all_number s = true → delimited rest → span_number (s +:+ rest) = (s, rest).
Proof.
  intros Hs Hrest. induction s as [|c s IH].
  - rewrite append_nil. destruct rest as [|c rest]; [done|].
    simpl in *. by rewrite Hrest.
  - simpl in Hs. apply andb_true_iff in Hs as [Hc Hs].
    rewrite append_cons. simpl. by rewrite Hc, IH.
Qed.

Lemma length_elements s ss :
  String.length (elements (s :: ss)) =
    (String.length s +
     match ss with [] => 1 | _ => 1 + String.length (elements ss) end)%nat.
Proof.
  cbn [elements]. rewrite length_append. destruct ss; [done|].
  by rewrite length_append.
Qed.

Lemma length_members k s kss :
  String.length (members ((k, s) :: kss)) =
    (String.length (quoted k) + (1 + (String.length s +
     match kss with [] => 1 | _ => 1 + String.length (members kss) end)))%nat.
Proof.
  cbn [members]. rewrite !length_append. destruct kss; [done|].
  by rewrite length_append.
Qed.

Lemma parse_bracket f rest : parse f (String "]" rest) = None.
Proof. by destruct f. Qed.

Lemma parse_elements_bracket f rest : parse_elements f (String "]" rest) = None.
Proof. destruct f as [|f]; [done|]. cbn [parse_elements]. by rewrite parse_bracket. Qed.

Lemma parse_members_brace f rest : parse_members f (String "}" rest) = None.
Proof. by destruct f. Qed.

Section step.
Variable F : nat.
Hypothesis parse_F : ∀ f v s rest,
  (f ≤ F)%nat → Marshal v = Some s → (String.length s ≤ f)%nat → delimited rest →
  parse f (s +:+ rest) = Some (v, rest).

Lemma parse_elements_elements l ss rest :
  Forall2 (λ v s, Marshal v = Some s) l ss → l ≠ [] →
  ∀ f, (f ≤ S F)%nat → (String.length (elements ss) ≤ f)%nat →
  parse_elements f (elements ss +:+ rest) = Some (l, rest).
Proof.
  induction 1 as [|v s l ss Hv Hl IHl]; [done|]. intros _ f Hf Hlen.
  rewrite length_elements in Hlen.
  destruct f as [|f]; [destruct ss; lia|].
  cbn [parse_elements elements]. rewrite append_assoc.
  destruct Hl as [|v' s' l ss Hv' Hl].
  - rewrite (parse_F f v s) by (done || lia). done.
  - rewrite append_assoc, (parse_F f v s) by (done || lia).
    rewrite append_cons, append_nil. simpl.
    rewrite IHl by (done || lia). done.
Qed.

Lemma parse_members_members (kvs : list (string * value)) kss rest :
  Forall2 (λ kv ks, kv.1 = ks.1 ∧ Marshal kv.2 = Some ks.2) kvs kss → kvs ≠ [] →
  ∀ f, (f ≤ S F)%nat → (String.length (members kss) ≤ f)%nat →
  parse_members f (members kss +:+ rest) = Some (kvs, rest).
Proof.
  induction 1 as [|[k v] [k' s] kvs kss [Hk Hv] Hl IHl]; [done|].
  intros _ f Hf Hlen. simpl in Hk, Hv. subst k'.
  rewrite length_members in Hlen.
  destruct f as [|f]; [lia|].
  cbn [parse_members members]. unfold quoted at 1.
  rewrite !append_assoc, !append_cons, !append_nil.
  cbn [strip]. rewrite Ascii.eqb_refl. cbn [mbind option_bind].
  rewrite append_assoc, append_cons, unescape_escape. simpl.
  destruct Hl as [|[k2 v2] [k2' s2] kvs kss Hkv2 Hl].
  - rewrite (parse_F f v s) by (done || lia). done.
  - rewrite (parse_F f v s) by (done || lia).
    simpl. rewrite IHl by (done || lia). done.
Qed.

End step.

Lemma Marshal_nonempty v s : Marshal v = Some s → (0 < String.length s)%nat.
Proof.
  destruct v as [|[]|n|s0|l|m|]; simpl; intros Hs; simplify_option_eq;
    try (simpl; lia).
  pose proof (itoa_nonempty n). destruct (itoa n); [done|simpl; lia].
Qed.

Lemma Marshal_members m kss :
  mapM member (merge_sort key_le (map_to_list (Marshal <$> m))) = Some kss →
  ∃ kvs, kvs ≡ₚ map_to_list m ∧
    Forall2 (λ kv ks, kv.1 = ks.1 ∧ Marshal kv.2 = Some ks.2) kvs kss.
Proof.
  intros Hkss%mapM_Some.
  pose proof (merge_sort_Permutation key_le (map_to_list (Marshal <$> m))) as Hp.
  rewrite map_to_list_fmap in Hp.
  apply Permutation_map_inv in Hp as (kvs & Heq & Hp).
  exists kvs. split; [done|]. rewrite map_to_list_fmap, Heq in Hkss. clear Heq Hp.
  revert kss Hkss. induction kvs as [|[k v] kvs IH]; intros kss Hkss.
  - apply Forall2_nil_inv_l in Hkss as ->. constructor.
  - apply Forall2_cons_inv_l in Hkss as ([k' s] & kss' & Hm & Hkss & ->).
    constructor; [|by apply IH].
    unfold member in Hm. simpl in *. by simplify_option_eq.
Qed.

Lemma parse_Marshal F : ∀ f v s rest,
  (f ≤ F)%nat → Marshal v = Some s → (String.length s ≤ f)%nat → delimited rest →
  parse f (s +:+ rest) = Some (v, rest).
Proof.
  induction F as [|F IH]; intros f v s rest Hf Hv Hlen Hrest;
    pose proof (Marshal_nonempty _ _ Hv) as Hpos; [lia|].
  destruct f as [|f]; [lia|].
  destruct v as [|[]|n|s0|l|m|]; cbn [Marshal] in Hv.
  - by injection Hv as <-.
  - by injection Hv as <-.
  - by injection Hv as <-.
  - injection Hv as <-.
    pose proof (all_number_itoa n) as Hall.
    destruct (itoa n) as [|c tok] eqn:Hn; [simpl in Hpos; lia|].
    simpl in Hall. apply andb_true_iff in Hall as [Hc Hall].
    rewrite append_cons. cbn [parse]. rewrite Hc.
    rewrite <-append_cons, <-Hn, span_number_append, atoi_itoa;
      [done|apply all_number_itoa|done].
  - injection Hv as <-.
    unfold quoted. rewrite append_cons, append_assoc, append_cons, append_nil.
    simpl. by rewrite unescape_escape.
  - apply bind_Some in Hv as (ss & Hss%mapM_Some & [= <-]).
    rewrite append_cons, append_nil.
    rewrite append_cons, append_nil in Hlen. simpl in Hlen.
    destruct l as [|v l].
    + apply Forall2_nil_inv_l in Hss as ->.
      simpl. by rewrite append_cons, append_nil, parse_elements_bracket.
    + simpl. by rewrite (parse_elements_elements F IH (v :: l)) by (done || lia).
  - apply bind_Some in Hv as (kss & Hkss & [= <-]).
    apply Marshal_members in Hkss as (kvs & Hp & Hkss).
    rewrite append_cons, append_nil.
    rewrite append_cons, append_nil in Hlen. simpl in Hlen.
    assert (list_to_map (reverse kvs) = m) as Hm.
    { rewrite <-(list_to_map_to_list m). apply list_to_map_proper.
      - rewrite reverse_Permutation, Hp. apply NoDup_fst_map_to_list.
      - by rewrite reverse_Permutation. }
    destruct kvs as [|kv kvs].
    + apply Forall2_nil_inv_l in Hkss as ->.
      simpl. rewrite append_cons, append_nil, parse_members_brace. simpl.
      by rewrite <-Hm.
    + simpl. rewrite (parse_members_members F IH (kv :: kvs)) by (done || lia).
      by rewrite Hm.
  - done.
Qed.

Lemma Unmarshal_Marshal v s : Marshal v = Some s → Unmarshal s = Some v.
Proof.
  intros Hv. unfold Unmarshal.
  rewrite <-(append_nil_r s) at 2.
  by rewrite (parse_Marshal (S (String.length s)) _ v) by (done || lia).
Qed.

End json_facts.

Definition reference_decoders transport : @Decoders (reference transport).
Proof.
  refine {| json_Unmarshal := JSON.Unmarshal;
            base64_DecodeString := Base64.DecodeString |}.
  - intros v j Hj. simpl in Hj.
    destruct (JSON.Marshal v) as [s|] eqn:Hs; [|done].
    injection Hj as <-. by apply Unmarshal_Marshal.
  - apply DecodeString_EncodeToString.
Defined.

(** ** What every call does *)

Section outcomes.
Context {lib : Library}.

Lemma list_neq_snoc {A} (l : list A) x : l ≠ l ++ [x].
Proof.
  intros Hl. apply (f_equal length) in Hl. rewrite length_app in Hl.
  simpl in Hl. lia.
Qed.

Lemma nonempty_length (s : string) : (0 < String.length s)%nat ↔ s ≠ "".
Proof. destruct s; simpl; [split; [lia|done]|split; [done|lia]]. Qed.

(** A call that returns had a client to read and reached [get]. *)
Lemma call_returned op m σ r σ' :
  call m op σ = (Returned r, σ') →
  ∃ l c, m = Some l ∧ clients σ !! l = Some c ∧ reaches_get σ op.
Proof.
  intros Hcall. destruct (m ≫= (clients σ !!.)) as [c|] eqn:Hm.
  - destruct m as [l|]; [|done]. simpl in Hm. exists l, c.
    split_and!; [done..|].
    destruct op as [event p| | | | | | | |]; try done. simpl.
    destruct (p ≫= (maps σ !!.)) eqn:Hp; [done|].
    simpl in Hcall. by rewrite (Track_panics_nil_map l c) in Hcall.
  - destruct (call_panics_nil_client op m σ Hm) as (σ'' & Hp & _).
    by rewrite Hp in Hcall.
Qed.

(** A call that does not reach [get] panics and sends nothing. *)
Lemma call_stops op l c σ :
  clients σ !! l = Some c → ¬ reaches_get σ op →
  call (Some l) op σ = (Panicked NilMapAssignment, σ).
Proof.
  intros Hc Hop. destruct op as [event p| | | | | | | |]; try done. simpl in *.
  apply (Track_panics_nil_map l c); [done|].
  by destruct (p ≫= (maps σ !!.)); [destruct Hop|].
Qed.

(** A call that sends a request sent [get]'s request for its data, and
    that data serialized. *)
Lemma call_sent op l c σ o σ' url :
  clients σ !! l = Some c →
  call (Some l) op σ = (o, σ') →
  requests σ' = requests σ ++ [url] →
  ∃ j, reaches_get σ op ∧
    json_Marshal (VMap (request_data c σ op)) = inl j ∧
    url = BaseURL c +:+ path op +:+ "?data=" +:+ base64_EncodeToString j ∧
    σ' = sent url (prepared c σ op) ∧
    o = Returned (conclude (response_error op)
                    (received (http_Get (requests σ) url))).
Proof.
  intros Hc Hcall Hreq.
  assert (reaches_get σ op) as Hop.
  { destruct op as [event p| | | | | | | |]; try done. simpl.
    destruct (p ≫= (maps σ !!.)) eqn:Hp; [done|]. simpl in Hcall.
    rewrite (Track_panics_nil_map l c) in Hcall by done.
    injection Hcall as <- <-. by apply list_neq_snoc in Hreq. }
  pose proof (call_cases op l c σ Hc Hop) as Hcases. cbv zeta in Hcases.
  destruct (json_Marshal _) as [j|err].
  - rewrite Hcases in Hcall. injection Hcall as <- <-.
    simpl in Hreq. rewrite prepared_requests in Hreq.
    apply app_inv_head in Hreq. injection Hreq as <-. by exists j.
  - rewrite Hcases in Hcall. injection Hcall as <- <-.
    rewrite prepared_requests in Hreq. by apply list_neq_snoc in Hreq.
Qed.

End outcomes.

(** ** The properties of the specification *)

Section properties.
Context {lib : Library}.

(** C1.  Whenever an operation returns after a request for which the
    transport delivered a complete response body, it returns no error
    exactly when that body is the string "1"; for any other body [Track]
    (and the alias operation, which is a [Track] call) returns
    [ErrUnexpectedTrackResponse] and every profile operation returns
    [ErrUnexpectedEngageResponse]. *)
Theorem response_body_decides_result op m σ r σ' url body :
  call m op σ = (Returned r, σ') →
  requests σ' = requests σ ++ [url] →
  http_Get (requests σ) url = GetResponse body None →
  (r = None ↔ body = "1") ∧
  (body ≠ "1" →
   r = Some (if is_profile op then ErrUnexpectedEngageResponse
             else ErrUnexpectedTrackResponse)).
Proof.
  intros Hcall Hreq Hget.
  destruct (call_returned _ _ _ _ _ Hcall) as (l & c & -> & Hc & _).
  destruct (call_sent _ _ _ _ _ _ _ Hc Hcall Hreq) as (j & _ & _ & _ & _ & Hr).
  injection Hr as ->. rewrite Hget. unfold conclude, response_error. simpl.
  destruct (decide (body ≠ "1")) as [Hne|Heq%dec_stable].
  - split; [split; [done|by intros ?]|done].
  - split; [done|]. by intros ?.
Qed.

(** C6.  For every operation that reaches the request routine with data
    that [json.Marshal] accepts: the routine is given the endpoint
    [{baseURL}/track/] ([Track], alias) or [{baseURL}/engage/] (profile
    operations); exactly one request is made, to
    [{endpoint}?data={base64(json(data))}]; and the body the transport
    delivers is what the routine returns, as a string. *)
Theorem request_is_get_of_base64_json op l c σ j :
  clients σ !! l = Some c →
  reaches_get σ op →
  json_Marshal (VMap (request_data c σ op)) = inl j →
  let endpoint := BaseURL c +:+ (if is_profile op then "/engage/" else "/track/") in
  let url := endpoint +:+ "?data=" +:+ base64_EncodeToString j in
  ∃ r σ',
    call (Some l) op σ = (Returned r, σ') ∧
    requests σ' = requests σ ++ [url] ∧
    ∀ responseBody err,
      http_Get (requests σ) url = GetResponse responseBody err →
      get (Some l) endpoint (request_data c σ op) (prepared c σ op)
        = (Returned (responseBody, err), σ').
Proof.
  intros Hc Hop Hj endpoint url.
  pose proof (call_cases op l c σ Hc Hop) as Hcases. cbv zeta in Hcases.
  rewrite Hj in Hcases. fold (path op) in endpoint.
  assert (BaseURL c +:+ path op +:+ "?data=" +:+ base64_EncodeToString j = url)
    as Hurl by (unfold url, endpoint; by rewrite append_assoc).
  rewrite Hurl in Hcases.
  eexists _, _. split; [done|]. split.
  - simpl. by rewrite prepared_requests.
  - intros responseBody err Hget. rewrite get_run, Hj. cbv zeta.
    fold url. by rewrite prepared_requests, Hget.
Qed.

(** C7.  When the request routine fails -- [json.Marshal] rejects the
    data, [http.Get] fails, or reading the body fails -- an operation that
    returns, returns that very error. *)
Theorem request_errors_are_returned_unchanged op l c σ r σ' :
  clients σ !! l = Some c →
  call (Some l) op σ = (Returned r, σ') →
  (∀ err, json_Marshal (VMap (request_data c σ op)) = inr err →
     r = Some err ∧ requests σ' = requests σ) ∧
  (∀ j, json_Marshal (VMap (request_data c σ op)) = inl j →
     let url := BaseURL c +:+ (if is_profile op then "/engage/" else "/track/")
                  +:+ "?data=" +:+ base64_EncodeToString j in
     (∀ err, http_Get (requests σ) url = GetError err → r = Some err) ∧
     (∀ responseBody err,
        http_Get (requests σ) url = GetResponse responseBody (Some err) →
        r = Some err)).
Proof.
  intros Hc Hcall.
  destruct (call_returned _ _ _ _ _ Hcall) as (? & ? & _ & _ & Hop).
  pose proof (call_cases op l c σ Hc Hop) as Hcases. cbv zeta in Hcases.
  fold (path op). split.
  - intros err Herr. rewrite Herr, Hcall in Hcases.
    injection Hcases as -> ->. by rewrite prepared_requests.
  - intros j Hj url. rewrite Hj, Hcall in Hcases. fold url in Hcases.
    injection Hcases as -> _. split.
    + intros err ->. done.
    + intros responseBody err ->. done.
Qed.

(** C9.  No operation changes any client: whatever the receiver, the
    arguments and the outcome, the [Mixpanel] structs in the store are
    afterwards what they were before. *)
Theorem operations_leave_clients_unchanged op m σ o σ' :
  call m op σ = (o, σ') → clients σ' = clients σ.
Proof.
  intros Hcall. destruct (m ≫= (clients σ !!.)) as [c|] eqn:Hm.
  - destruct m as [l|]; [|done]. simpl in Hm.
    destruct (decide (reaches_get σ op)) as [Hop|Hop].
    + pose proof (call_cases op l c σ Hm Hop) as Hcases. cbv zeta in Hcases.
      destruct (json_Marshal _); rewrite Hcases in Hcall;
        injection Hcall as <- <-; simpl; apply prepared_clients.
    + rewrite (call_stops op l c σ Hm Hop) in Hcall. by injection Hcall as <- <-.
  - destruct (call_panics_nil_client op m σ Hm) as (σ'' & Hp & Hcl & _).
    rewrite Hp in Hcall. by injection Hcall as <- <-.
Qed.

(** C5.  The alias operation is [Track] with the event name
    [$create_alias], called on a map the caller does not share: a new
    map holding [distinct_id] = oldID and [alias] = newID. *)
Theorem alias_is_Track_create_alias m oldID newID σ :
  let q := fresh (dom (maps σ)) in
  let properties : gmap string value :=
    {[ "distinct_id" := VString oldID; "alias" := VString newID ]} in
  maps σ !! q = None ∧
  ProfileCreateAliasDistinctIdToAlias m oldID newID σ =
    Track m "$create_alias" (Some q)
      (MkState (clients σ) (<[q := properties]> (maps σ)) (requests σ)).
Proof.
  intros q properties. split; [|done].
  apply not_elem_of_dom, is_fresh.
Qed.

(** C10.  [Track] on a nil properties map panics at the assignment of the
    [token] entry -- it returns no error and sends nothing -- and that
    assignment goes through only for a map that exists. *)
Theorem Track_nil_properties_panics l c event σ :
  clients σ !! l = Some c →
  Track (Some l) event None σ = (Panicked NilMapAssignment, σ) ∧
  ∀ properties k v u σ',
    map_assign properties k v σ = (Returned u, σ') →
    ∃ q content, properties = Some q ∧ maps σ !! q = Some content.
Proof.
  intros Hc. split; [by apply (Track_panics_nil_map l c)|].
  intros [q|] k v u σ' Ha; [|done]. unfold map_assign in Ha.
  destruct (maps σ !! q) as [content|] eqn:Hq; [|done]. by exists q, content.
Qed.

End properties.

(** C8.  A client made from a token alone has that token and the default
    API host, [https://api.mixpanel.com], as its base URL; one made with a
    second argument has that argument as its base URL.  Either way the
    client is a new struct, and no override address is set. *)
Theorem NewMixpanelClient_fields token baseURL rest σ :
  BASE_URL = "https://api.mixpanel.com" ∧
  (∃ l σ', NewMixpanelClient [token] σ = (Returned (Some l), σ') ∧
     clients σ !! l = None ∧
     clients σ' !! l = Some (MkMixpanel token "https://api.mixpanel.com" "")) ∧
  (∃ l σ', NewMixpanelClient (token :: baseURL :: rest) σ = (Returned (Some l), σ') ∧
     clients σ !! l = None ∧
     clients σ' !! l = Some (MkMixpanel token baseURL "")).
Proof.
  split; [done|].
  split; eexists _, _; (split; [done|]); simpl;
    (split; [apply not_elem_of_dom, is_fresh|apply lookup_insert_eq]).
Qed.

(** ** What the requests decode to *)

Section decoded.
Context {lib : Library} {dec : Decoders}.

(** Whatever request a call sends carries, after the endpoint and
    [?data=], Base64 text that decodes to JSON text that decodes to the
    data the call handed to [get]. *)
Lemma request_decodes op l c σ o σ' url :
  clients σ !! l = Some c →
  call (Some l) op σ = (o, σ') →
  requests σ' = requests σ ++ [url] →
  ∃ d j,
    url = BaseURL c +:+ path op +:+ "?data=" +:+ d ∧
    base64_DecodeString d = Some j ∧
    json_Unmarshal j = Some (VMap (request_data c σ op)) ∧
    σ' = sent url (prepared c σ op).
Proof.
  intros Hc Hcall Hreq.
  destruct (call_sent _ _ _ _ _ _ _ Hc Hcall Hreq) as (j & _ & Hj & -> & Hσ' & _).
  exists (base64_EncodeToString j), j.
  split_and!; [done|apply base64_Decode_Encode|by apply json_Unmarshal_Marshal|done].
Qed.




End decoded.

(** ** The sample run *)

Section sample.
Let answers (body : string) : Library := reference (stub (GetResponse body None)).
Let me : pointer := Some 1%positive.
Let store_after (lib : Library) (op : operation) : state :=
  (call me op sample_store).2.
Let sent_by (lib : Library) (op : operation) : string :=
  default "" (last (requests (store_after lib op))).

Example sample_Track :
  @call (answers "1") me (CallTrack "signup" me) sample_store =
    (Returned None,
     MkState (clients sample_store)
       {[ 1%positive := {[ "plan" := VString "pro"; "token" := VString "tok" ]} ]}
       ["https://api.mixpanel.com/track/?data=eyJldmVudCI6InNpZ251cCIsInByb3BlcnRpZXMiOnsicGxhbiI6InBybyIsInRva2VuIjoidG9rIn19"]).
Proof. vm_compute. reflexivity. Qed.

Example sample_ProfileAdd :
  @call (answers "0") me
    (CallProfileAdd "u1" (Some {[ "items_created" := 10; "invites_sent" := -1 ]}))
    sample_store =
    (Returned (Some ErrUnexpectedEngageResponse),
     MkState (clients sample_store) (maps sample_store)
       ["https://api.mixpanel.com/engage/?data=eyIkYWRkIjp7Imludml0ZXNfc2VudCI6LTEsIml0ZW1zX2NyZWF0ZWQiOjEwfSwiJGRpc3RpbmN0X2lkIjoidTEiLCIkaXAiOiIxMC4wLjAuMSIsIiR0b2tlbiI6InRvayJ9"]).
Proof. vm_compute. reflexivity. Qed.

Example sample_ProfileUnset :
  sent_by (answers "1") (CallProfileUnset "u1" (Some ["Days Purchased"])) =
    "https://api.mixpanel.com/engage/?data=eyIkZGlzdGluY3RfaWQiOiJ1MSIsIiRpcCI6IjEwLjAuMC4xIiwiJHRva2VuIjoidG9rIiwiJHVuc2V0IjpbIkRheXMgUHVyY2hhc2VkIl19".
Proof. vm_compute. reflexivity. Qed.

Example sample_ProfileDelete :
  sent_by (answers "1") (CallProfileDelete "u1") =
    "https://api.mixpanel.com/engage/?data=eyIkZGVsZXRlIjoiIiwiJGRpc3RpbmN0X2lkIjoidTEiLCIkaXAiOiIxMC4wLjAuMSIsIiR0b2tlbiI6InRvayJ9".
Proof. vm_compute. reflexivity. Qed.

(** [Alias("old1", "new1")]: the request is the [Track] request for the
    event [$create_alias] with the properties [alias] = new1,
    [distinct_id] = old1 and the token. *)
Example sample_Alias :
  sent_by (answers "1") (CallAlias "old1" "new1") =
    "https://api.mixpanel.com/track/?data=eyJldmVudCI6IiRjcmVhdGVfYWxpYXMiLCJwcm9wZXJ0aWVzIjp7ImFsaWFzIjoibmV3MSIsImRpc3RpbmN0X2lkIjoib2xkMSIsInRva2VuIjoidG9rIn19"
  ∧ (Base64.DecodeString
       "eyJldmVudCI6IiRjcmVhdGVfYWxpYXMiLCJwcm9wZXJ0aWVzIjp7ImFsaWFzIjoibmV3MSIsImRpc3RpbmN0X2lkIjoib2xkMSIsInRva2VuIjoidG9rIn19"
     ≫= JSON.Unmarshal) =
    Some (VMap {[ "event" := VString "$create_alias";
                  "properties" := VMap {[ "distinct_id" := VString "old1";
                                          "alias" := VString "new1";
                                          "token" := VString "tok" ]} ]}).
Proof. split; vm_compute; reflexivity. Qed.

(** A value [json.Marshal] rejects: the operation returns the encoder's
    error and sends nothing. *)
Example sample_unsupported :
  @call (answers "1") me (CallProfileSet "u1" (Some 2%positive))
    (MkState (clients sample_store) {[ 2%positive := {[ "c" := VChan ]} ]} []) =
    (Returned (Some (ErrForeign "json: unsupported type")),
     MkState (clients sample_store) {[ 2%positive := {[ "c" := VChan ]} ]} []).
Proof. vm_compute. reflexivity. Qed.

End sample.

(** ** The properties at the sample run *)

Lemma response_body_decides_result_witness :
  let lib := reference (stub (GetResponse "0" None)) in
  let op := CallTrack "signup" (Some 1%positive) in
  let σ' := (@call lib (Some 1%positive) op sample_store).2 in
  let url := default "" (last (requests σ')) in
  let r := Some ErrUnexpectedTrackResponse in
  @call lib (Some 1%positive) op sample_store = (Returned r, σ') ∧
  requests σ' = requests sample_store ++ [url] ∧
  @http_Get lib (requests sample_store) url = GetResponse "0" None ∧
  (r = None ↔ "0" = "1") ∧
  ("0" ≠ "1" → r = Some ErrUnexpectedTrackResponse).
Proof.
  intros lib op σ' url r.
  assert (@call lib (Some 1%positive) op sample_store = (Returned r, σ')) as H1
    by (vm_compute; reflexivity).
  assert (requests σ' = requests sample_store ++ [url]) as H2
    by (vm_compute; reflexivity).
  assert (@http_Get lib (requests sample_store) url = GetResponse "0" None) as H3
    by reflexivity.
  split; [exact H1|]. split; [exact H2|]. split; [exact H3|].
  exact (@response_body_decides_result lib op (Some 1%positive) sample_store
           r σ' url "0" H1 H2 H3).
Defined.

Lemma request_is_get_of_base64_json_witness :
  let lib := reference (stub (GetResponse "1" None)) in
  let op := CallProfileDelete "u1" in
  let j := default "" (JSON.Marshal (VMap (request_data sample_client sample_store op))) in
  let url := "https://api.mixpanel.com/engage/?data=eyIkZGVsZXRlIjoiIiwiJGRpc3RpbmN0X2lkIjoidTEiLCIkaXAiOiIxMC4wLjAuMSIsIiR0b2tlbiI6InRvayJ9" in
  clients sample_store !! 1%positive = Some sample_client ∧
  reaches_get sample_store op ∧
  @json_Marshal lib (VMap (request_data sample_client sample_store op)) = inl j ∧
  ∃ r σ',
    @call lib (Some 1%positive) op sample_store = (Returned r, σ') ∧
    requests σ' = requests sample_store ++ [url] ∧
    ∀ responseBody err,
      @http_Get lib (requests sample_store) url = GetResponse responseBody err →
      @get lib (Some 1%positive) "https://api.mixpanel.com/engage/"
        (request_data sample_client sample_store op)
        (prepared sample_client sample_store op)
        = (Returned (responseBody, err), σ').
Proof.
  intros lib op j url.
  assert (clients sample_store !! 1%positive = Some sample_client) as H1
    by (vm_compute; reflexivity).
  assert (reaches_get sample_store op) as H2 by exact I.
  assert (@json_Marshal lib (VMap (request_data sample_client sample_store op)) = inl j)
    as H3 by (vm_compute; reflexivity).
  split; [exact H1|]. split; [exact H2|]. split; [exact H3|].
  exact (@request_is_get_of_base64_json lib op 1%positive sample_client
           sample_store j H1 H2 H3).
Defined.

Lemma request_errors_are_returned_unchanged_witness :
  let refused := ErrForeign "dial tcp: connection refused" in
  let lib := reference (stub (GetError refused)) in
  let op := CallProfileUnset "u1" (Some ["Days Purchased"]) in
  let σ' := (@call lib (Some 1%positive) op sample_store).2 in
  clients sample_store !! 1%positive = Some sample_client ∧
  @call lib (Some 1%positive) op sample_store = (Returned (Some refused), σ') ∧
  (∀ err, @json_Marshal lib (VMap (request_data sample_client sample_store op)) = inr err →
     Some refused = Some err ∧ requests σ' = requests sample_store) ∧
  (∀ j, @json_Marshal lib (VMap (request_data sample_client sample_store op)) = inl j →
     let url := BaseURL sample_client +:+ (if is_profile op then "/engage/" else "/track/")
                  +:+ "?data=" +:+ @base64_EncodeToString lib j in
     (∀ err, @http_Get lib (requests sample_store) url = GetError err →
        Some refused = Some err) ∧
     (∀ responseBody err,
        @http_Get lib (requests sample_store) url = GetResponse responseBody (Some err) →
        Some refused = Some err)).
Proof.
  intros refused lib op σ'.
  assert (clients sample_store !! 1%positive = Some sample_client) as H1
    by (vm_compute; reflexivity).
  assert (@call lib (Some 1%positive) op sample_store = (Returned (Some refused), σ'))
    as H2 by (vm_compute; reflexivity).
  split; [exact H1|]. split; [exact H2|].
  exact (@request_errors_are_returned_unchanged lib op 1%positive sample_client
           sample_store (Some refused) σ' H1 H2).
Defined.

Lemma operations_leave_clients_unchanged_witness :
  let lib := reference (stub (GetResponse "1" None)) in
  let op := CallAlias "old1" "new1" in
  let res := @call lib (Some 1%positive) op sample_store in
  @call lib (Some 1%positive) op sample_store = (res.1, res.2) ∧
  clients res.2 = clients sample_store.
Proof.
  intros lib op res.
  assert (@call lib (Some 1%positive) op sample_store = (res.1, res.2)) as H1
    by (vm_compute; reflexivity).
  split; [exact H1|].
  exact (@operations_leave_clients_unchanged lib op (Some 1%positive) sample_store
           res.1 res.2 H1).
Defined.

Lemma Track_nil_properties_panics_witness :
  let lib := reference (stub (GetResponse "1" None)) in
  clients sample_store !! 1%positive = Some sample_client ∧
  @Track lib (Some 1%positive) "signup" None sample_store
    = (Panicked NilMapAssignment, sample_store) ∧
  ∀ properties k v u σ',
    map_assign properties k v sample_store = (Returned u, σ') →
    ∃ q content, properties = Some q ∧ maps sample_store !! q = Some content.
Proof.
  intros lib.
  assert (clients sample_store !! 1%positive = Some sample_client) as H1
    by (vm_compute; reflexivity).
  split; [exact H1|].
  exact (@Track_nil_properties_panics lib 1%positive sample_client "signup"
           sample_store H1).
Defined.




(** ** Further properties of the operations *)

Section further.
Context {lib : Library}.

(** The maps of the store after a call. *)
Lemma call_maps op m σ :
  maps (call m op σ).2 =
    match op with
    | CallTrack _ (Some q) =>
        match m ≫= (clients σ !!.), maps σ !! q with
        | Some c, Some props =>
            <[q := <["token" := VString (Token c)]> props]> (maps σ)
        | _, _ => maps σ
        end
    | CallAlias oldID newID =>
        let q := fresh (dom (maps σ)) in
        let properties : gmap string value :=
          {[ "distinct_id" := VString oldID; "alias" := VString newID ]} in
        match m ≫= (clients σ !!.) with
        | Some c => <[q := <["token" := VString (Token c)]> properties]> (maps σ)
        | None => <[q := properties]> (maps σ)
        end
    | _ => maps σ
    end.
Proof.
  destruct (m ≫= (clients σ !!.)) as [c|] eqn:Hm.
  - destruct m as [l|]; [|done]. simpl in Hm.
    destruct (decide (reaches_get σ op)) as [Hop|Hop].
    + pose proof (call_cases op l c σ Hm Hop) as Hcases. cbv zeta in Hcases.
      assert (maps (call (Some l) op σ).2 = maps (prepared c σ op)) as ->
        by (destruct (json_Marshal _); by rewrite Hcases).
      destruct op as [event [q|]| | | | | | | |]; try done.
      * simpl in Hop. destruct Hop as [props Hq]. simpl. by rewrite Hq.
      * simpl. by rewrite insert_insert_eq.
    + rewrite (call_stops op l c σ Hm Hop).
      destruct op as [event [q|]| | | | | | | |]; try done; simpl in *.
      destruct (maps σ !! q); [by destruct Hop|done].
  - destruct op as [event [q|]| | | | | | | |]; cbn [call];
      rewrite ?Track_panics_nil_client by done; try done.
    + unfold ProfileSet. by rewrite bind_run, map_value_run, engage_panics.
    + unfold ProfileSetOnce. by rewrite bind_run, map_value_run, engage_panics.
    + unfold ProfileAdd. by rewrite engage_panics.
    + unfold ProfileAppend. by rewrite bind_run, map_value_run, engage_panics.
    + unfold ProfileUnion. by rewrite bind_run, map_value_run, engage_panics.
    + unfold ProfileUnset. by rewrite engage_panics.
    + unfold ProfileDelete. by rewrite engage_panics.
    + unfold ProfileCreateAliasDistinctIdToAlias. rewrite bind_run.
      unfold new_map at 1. cbv zeta. by rewrite Track_panics_nil_client.
Qed.

(** The clients of the store after a call. *)
Lemma call_clients op m σ :
  clients (call m op σ).2 = clients σ.
Proof.
  destruct (m ≫= (clients σ !!.)) as [c|] eqn:Hm.
  - destruct m as [l|]; [|done]. simpl in Hm.
    destruct (decide (reaches_get σ op)) as [Hop|Hop].
    + pose proof (call_cases op l c σ Hm Hop) as Hcases. cbv zeta in Hcases.
      destruct (json_Marshal _); rewrite Hcases; simpl; apply prepared_clients.
    + by rewrite (call_stops op l c σ Hm Hop).
  - by destruct (call_panics_nil_client op m σ Hm) as (σ'' & -> & Hcl & _).
Qed.

(** An operation panics in two cases only, and then sends nothing: on a
    receiver that is nil it panics with a nil dereference, and [Track] on
    a nil map panics at the assignment of [token].  In every other case
    it returns; the profile operations and the alias take any arguments,
    nil included. *)
Theorem operations_panic_on_nil_only op m σ :
  match m ≫= (clients σ !!.) with
  | None =>
      (call m op σ).1 = Panicked NilDereference ∧
      requests (call m op σ).2 = requests σ
  | Some c =>
      match op with
      | CallTrack event properties =>
          match properties ≫= (maps σ !!.) with
          | None => call m op σ = (Panicked NilMapAssignment, σ)
          | Some _ => ∃ r, (call m op σ).1 = Returned r
          end
      | _ => ∃ r, (call m op σ).1 = Returned r
      end
  end.
Proof.
  destruct (m ≫= (clients σ !!.)) as [c|] eqn:Hm.
  - destruct m as [l|]; [|done]. simpl in Hm.
    assert (reaches_get σ op → ∃ r, (call (Some l) op σ).1 = Returned r) as Hret.
    { intros Hop. pose proof (call_cases op l c σ Hm Hop) as Hcases.
      cbv zeta in Hcases.
      destruct (json_Marshal _); rewrite Hcases; by eexists. }
    destruct op as [event p| | | | | | | |]; try by apply Hret.
    destruct (p ≫= (maps σ !!.)) as [props|] eqn:Hp.
    + apply Hret. simpl. by rewrite Hp.
    + by apply (Track_panics_nil_map l c).
  - destruct (call_panics_nil_client op m σ Hm) as (σ' & -> & _ & Hreq). done.
Qed.

(** Every operation makes at most one request, whatever it is answered:
    the log of requests afterwards is the log before, or the log before
    and one more URL. *)
Theorem operations_request_at_most_once op m σ :
  requests (call m op σ).2 = requests σ ∨
  ∃ url, requests (call m op σ).2 = requests σ ++ [url].
Proof.
  destruct (m ≫= (clients σ !!.)) as [c|] eqn:Hm.
  - destruct m as [l|]; [|done]. simpl in Hm.
    destruct (decide (reaches_get σ op)) as [Hop|Hop].
    + pose proof (call_cases op l c σ Hm Hop) as Hcases. cbv zeta in Hcases.
      destruct (json_Marshal _); rewrite Hcases; simpl;
        rewrite prepared_requests; eauto.
    + rewrite (call_stops op l c σ Hm Hop). by left.
  - destruct (call_panics_nil_client op m σ Hm) as (σ' & -> & _ & Hreq).
    by left.
Qed.


(** The profile operations only read: whatever the receiver and the
    arguments, the maps of the store are afterwards what they were. *)
Theorem profile_operations_change_no_map op m σ :
  is_profile op = true → maps (call m op σ).2 = maps σ.
Proof. intros Hop. rewrite call_maps. by destruct op. Qed.


(** The store [Track] leaves behind. *)
Lemma Track_store l c q props event σ o σ1 :
  clients σ !! l = Some c →
  maps σ !! q = Some props →
  Track (Some l) event (Some q) σ = (o, σ1) →
  maps σ1 = <[q := <["token" := VString (Token c)]> props]> (maps σ) ∧
  clients σ1 = clients σ.
Proof.
  intros Hc Hq Hcall.
  pose proof (call_maps (CallTrack event (Some q)) (Some l) σ) as H1.
  cbn [call] in H1. rewrite Hcall in H1. simpl in H1. rewrite Hc, Hq in H1.
  pose proof (call_clients (CallTrack event (Some q)) (Some l) σ) as H2.
  cbn [call] in H2. rewrite Hcall in H2. by simpl in H2.
Qed.

(** [Track] a second time on the same map finds the token in place: the
    map is after the second call what it was after the first. *)
Theorem Track_again_keeps_map l c q props event event' σ o σ1 :
  clients σ !! l = Some c →
  maps σ !! q = Some props →
  Track (Some l) event (Some q) σ = (o, σ1) →
  maps (Track (Some l) event' (Some q) σ1).2 = maps σ1 ∧
  maps σ1 !! q = Some (<["token" := VString (Token c)]> props).
Proof.
  intros Hc Hq Hcall.
  destruct (Track_store l c q props event σ o σ1 Hc Hq Hcall) as [H1 H2].
  assert (maps σ1 !! q = Some (<["token" := VString (Token c)]> props)) as Hq1
    by (rewrite H1; apply lookup_insert_eq).
  split; [|done].
  pose proof (call_maps (CallTrack event' (Some q)) (Some l) σ1) as H3.
  cbn [call] in H3. rewrite H3. simpl. rewrite H2, Hc, Hq1.
  rewrite insert_insert_eq. by apply insert_id.
Qed.

(** [NewMixpanelClient] without arguments returns nil, and every
    operation on what it returns panics with a nil dereference, before any
    request. *)
Theorem NewMixpanelClient_no_arguments op σ :
  NewMixpanelClient [] σ = (Returned None, σ) ∧
  ((NewMixpanelClient [] ≫= λ m, call m op) σ).1 = Panicked NilDereference ∧
  requests ((NewMixpanelClient [] ≫= λ m, call m op) σ).2 = requests σ.
Proof.
  split; [done|]. rewrite bind_run. simpl.
  destruct (call_panics_nil_client op None σ eq_refl) as (σ' & -> & _ & Hreq).
  done.
Qed.

End further.

(** [NewMixpanelClient] touches nothing that is in the store: the clients
    there stay, at their addresses and with their fields, and so do the
    maps and the log of requests. *)
Theorem NewMixpanelClient_keeps_store args σ :
  clients σ ⊆ clients (NewMixpanelClient args σ).2 ∧
  maps (NewMixpanelClient args σ).2 = maps σ ∧
  requests (NewMixpanelClient args σ).2 = requests σ.
Proof.
  assert (clients σ !! fresh (dom (clients σ)) = None) as Hfresh
    by apply not_elem_of_dom, is_fresh.
  destruct args as [|token [|baseURL rest]]; simpl;
    (split; [|done]); [done|by apply insert_subseteq..].
Qed.

(** Two clients made one after the other are two clients: the pointers
    differ, and each client has the token it was made with. *)
Theorem NewMixpanelClient_twice token1 token2 σ :
  ∃ l1 l2 σ',
    (m1 ← NewMixpanelClient [token1];
     m2 ← NewMixpanelClient [token2];
     mret (m1, m2)) σ = (Returned (Some l1, Some l2), σ') ∧
    l1 ≠ l2 ∧
    clients σ' !! l1 = Some (MkMixpanel token1 BASE_URL "") ∧
    clients σ' !! l2 = Some (MkMixpanel token2 BASE_URL "").
Proof.
  eexists _, _, _. split; [done|]. simpl.
  set (l1 := fresh (dom (clients σ))).
  set (l2 := fresh (dom (<[l1 := _]> (clients σ)))).
  assert (l1 ≠ l2) as Hne.
  { intros Heq. apply (is_fresh (dom (<[l1 := MkMixpanel token1 BASE_URL ""]>
                                       (clients σ)))).
    fold l2. rewrite <-Heq, dom_insert_L. set_solver. }
  split; [done|]. split.
  - rewrite lookup_insert_ne by done. apply lookup_insert_eq.
  - apply lookup_insert_eq.
Qed.

Section further_decoded.
Context {lib : Library} {dec : Decoders}.



End further_decoded.

(** ** The later version runs the earlier one *)

Section versions.
Context {lib : Library}.

(** [c] does on a later store what [c0] does on the earlier one. *)
Definition runs_as {A} (c : M A) (c0 : Earlier.M A) : Prop :=
  ∀ σ, c (later_state σ) = later_result (c0 σ).

Lemma runs_as_ret {A} (a : A) : runs_as (mret a) (mret a).
Proof. by intros σ. Qed.

Lemma runs_as_bind {A B} (c : M A) c0 (k : A → M B) k0 :
  runs_as c c0 → (∀ a, runs_as (k a) (k0 a)) → runs_as (c ≫= k) (c0 ≫= k0).
Proof.
  intros Hc Hk σ. unfold mbind, M_bind, Earlier.M_bind. rewrite Hc.
  destruct (c0 σ) as [[a|p] σ']; simpl; [apply Hk|done].
Qed.

Lemma runs_as_field {A} (f : Mixpanel → A) (f0 : Earlier.Mixpanel → A) m :
  (∀ c, f (later c) = f0 c) → runs_as (field f m) (Earlier.field f0 m).
Proof.
  intros Hf σ. unfold field, Earlier.field, load, Earlier.load.
  unfold mbind, M_bind, Earlier.M_bind, later_result. simpl.
  destruct m as [l|]; simpl; [|done]. rewrite lookup_fmap.
  destruct (Earlier.clients σ !! l) as [c|]; simpl; [|done]. by rewrite Hf.
Qed.

Lemma runs_as_map_assign p k v :
  runs_as (map_assign p k v) (Earlier.map_assign p k v).
Proof.
  intros σ. unfold map_assign, Earlier.map_assign, later_result.
  destruct p as [l|]; simpl; [|done]. by destruct (Earlier.maps σ !! l).
Qed.

Lemma runs_as_map_value p : runs_as (map_value p) (Earlier.map_value p).
Proof.
  intros σ. unfold map_value, Earlier.map_value, later_result.
  destruct p as [l|]; simpl; [|done]. by destruct (Earlier.maps σ !! l).
Qed.

Lemma runs_as_new_map m : runs_as (new_map m) (Earlier.new_map m).
Proof. by intros σ. Qed.

Lemma runs_as_get m url data : runs_as (get m url data) (Earlier.get m url data).
Proof.
  unfold get, Earlier.get. destruct (json_Marshal _); [|apply runs_as_ret].
  apply runs_as_bind; [by intros σ|]. intros [|]; apply runs_as_ret.
Qed.

Lemma runs_as_Track m event properties :
  runs_as (Track m event properties) (Earlier.Track m event properties).
Proof.
  unfold Track, Earlier.Track.
  apply runs_as_bind; [by apply runs_as_field|]. intros token.
  apply runs_as_bind; [apply runs_as_map_assign|]. intros _.
  apply runs_as_bind; [apply runs_as_map_value|]. intros props.
  apply runs_as_bind; [by apply runs_as_field|]. intros baseURL.
  apply runs_as_bind; [apply runs_as_get|]. intros [response [err|]].
  - apply runs_as_ret.
  - destruct (decide _); apply runs_as_ret.
Qed.

Lemma earlier_bind_run {A B} (c : Earlier.M A) (k : A → Earlier.M B) σ :
  (c ≫= k) σ = match c σ with
               | (Returned a, σ') => k a σ'
               | (Panicked p, σ') => (Panicked p, σ')
               end.
Proof. reflexivity. Qed.

Lemma earlier_field_run {A} (f : Earlier.Mixpanel → A) m σ :
  Earlier.field f m σ =
    match m ≫= (Earlier.clients σ !!.) with
    | Some c => (Returned (f c), σ)
    | None => (Panicked NilDereference, σ)
    end.
Proof.
  unfold Earlier.field, Earlier.load. rewrite earlier_bind_run.
  by destruct (m ≫= _).
Qed.

Lemma runs_as_engage m distinctID op properties :
  runs_as (engage m distinctID op properties)
    (Earlier.engage m distinctID op properties).
Proof.
  intros σ. unfold Earlier.engage.
  rewrite earlier_bind_run, earlier_field_run.
  destruct (m ≫= (Earlier.clients σ !!.)) as [c|] eqn:Hm.
  - destruct m as [l|]; [|done]. simpl in Hm.
    assert (clients (later_state σ) !! l = Some (later c)) as Hc
      by (simpl; by rewrite lookup_fmap, Hm).
    rewrite (engage_run l (later c)) by done.
    rewrite earlier_bind_run, earlier_field_run. simpl. rewrite Hm.
    rewrite earlier_bind_run.
    pose proof (runs_as_get (Some l) (Earlier.BaseURL c +:+ "/engage/")
                  (<[op := properties]>
                     (<["$distinct_id" := VString distinctID]>
                        (<["$token" := VString (Earlier.Token c)]> ∅))) σ) as Hget.
    unfold engage_data. simpl. rewrite Hget. unfold later_result.
    destruct (Earlier.get _ _ _ _) as [[[response [err|]]|p] σ']; simpl; try done.
    unfold conclude. simpl. by destruct (decide _).
  - rewrite engage_panics; [done|].
    destruct m as [l|]; [|done]. simpl in *. by rewrite lookup_fmap, Hm.
Qed.

Lemma call_runs_as op m : runs_as (call m op) (Earlier.call m op).
Proof.
  destruct op; cbn [call Earlier.call].
  - apply runs_as_Track.
  - apply runs_as_bind; [apply runs_as_map_value|]. intros v. apply runs_as_engage.
  - apply runs_as_bind; [apply runs_as_map_value|]. intros v. apply runs_as_engage.
  - apply runs_as_engage.
  - apply runs_as_bind; [apply runs_as_map_value|]. intros v. apply runs_as_engage.
  - apply runs_as_bind; [apply runs_as_map_value|]. intros v. apply runs_as_engage.
  - apply runs_as_engage.
  - apply runs_as_engage.
  - apply runs_as_bind; [apply runs_as_new_map|]. intros p. apply runs_as_Track.
Qed.

(** On clients without an override address the later version does what
    the earlier version did: every operation of the later version, run on
    the earlier store read as a later one, ends as the earlier operation
    does, with the same result or panic, the same maps and the same
    requests. *)
Theorem later_version_runs_earlier op m σ :
  call m op (later_state σ) = later_result (Earlier.call m op σ).
Proof. apply call_runs_as. Qed.

(** What an earlier call returns and sends, read off the later version. *)
Lemma earlier_call_sent op l c σ o σ' url :
  Earlier.clients σ !! l = Some c →
  Earlier.call (Some l) op σ = (o, σ') →
  Earlier.requests σ' = Earlier.requests σ ++ [url] →
  ∃ j,
    json_Marshal (VMap (request_data (later c) (later_state σ) op)) = inl j ∧
    url = Earlier.BaseURL c +:+ path op +:+ "?data=" +:+ base64_EncodeToString j ∧
    o = Returned (conclude (response_error op)
                    (received (http_Get (Earlier.requests σ) url))).
Proof.
  intros Hc Hcall Hreq.
  assert (clients (later_state σ) !! l = Some (later c)) as Hc'
    by (simpl; by rewrite lookup_fmap, Hc).
  pose proof (call_runs_as op (Some l) σ) as Hrun. rewrite Hcall in Hrun.
  destruct (call_sent op l (later c) (later_state σ) o (later_state σ') url
              Hc' Hrun Hreq) as (j & _ & Hj & Hurl & _ & Ho).
  by exists j.
Qed.

(** In the earlier version too the response body decides: an operation
    that returns after a request whose body was read without error
    returns no error exactly when the body is "1", and otherwise the
    error of its kind. *)
Theorem earlier_response_body_decides_result op m σ r σ' url body :
  Earlier.call m op σ = (Returned r, σ') →
  Earlier.requests σ' = Earlier.requests σ ++ [url] →
  http_Get (Earlier.requests σ) url = GetResponse body None →
  (r = None ↔ body = "1") ∧
  (body ≠ "1" →
   r = Some (if is_profile op then ErrUnexpectedEngageResponse
             else ErrUnexpectedTrackResponse)).
Proof.
  intros Hcall Hreq Hget.
  pose proof (call_runs_as op m σ) as Hrun. rewrite Hcall in Hrun.
  destruct (call_returned _ _ _ _ _ Hrun) as (l & c' & -> & Hc' & _).
  simpl in Hc'. rewrite lookup_fmap in Hc'.
  destruct (Earlier.clients σ !! l) as [c|] eqn:Hc; [|done].
  destruct (earlier_call_sent op l c σ _ σ' url Hc Hcall Hreq) as (j & _ & _ & Hr).
  injection Hr as ->. rewrite Hget. unfold conclude, response_error. simpl.
  destruct (decide (body ≠ "1")) as [Hne|Heq%dec_stable].
  - split; [split; [done|by intros ?]|done].
  - split; [done|]. by intros ?.
Qed.

End versions.

(** The constructors of the two versions make the same client: the later
    one sets no override address. *)
Theorem later_NewMixpanelClient_makes_earlier_client args σ :
  NewMixpanelClient args (later_state σ)
    = later_result (Earlier.NewMixpanelClient args σ).
Proof.
  assert (fresh (dom (later <$> Earlier.clients σ))
          = fresh (dom (Earlier.clients σ))) as Hfresh
    by by rewrite dom_fmap_L.
  destruct args as [|token [|baseURL rest]]; [done|..];
    unfold NewMixpanelClient, Earlier.NewMixpanelClient, new_client,
      Earlier.new_client, later_result, later_state; simpl;
    by rewrite Hfresh, fmap_insert.
Qed.

Section versions_decoded.
Context {lib : Library} {dec : Decoders}.



End versions_decoded.

(** ** The further properties at the sample run *)


Lemma profile_operations_change_no_map_witness :
  let lib := reference (stub (GetResponse "1" None)) in
  let op := CallProfileSet "u1" (Some 1%positive) in
  is_profile op = true ∧
  maps (@call lib (Some 1%positive) op sample_store).2 = maps sample_store.
Proof.
  intros lib op.
  assert (is_profile op = true) as H1 by reflexivity.
  split; [exact H1|].
  exact (@profile_operations_change_no_map lib op (Some 1%positive) sample_store H1).
Defined.


Lemma Track_again_keeps_map_witness :
  let lib := reference (stub (GetResponse "1" None)) in
  let props : gmap string value := {[ "plan" := VString "pro" ]} in
  let res := @Track lib (Some 1%positive) "signup" (Some 1%positive) sample_store in
  clients sample_store !! 1%positive = Some sample_client ∧
  maps sample_store !! 1%positive = Some props ∧
  @Track lib (Some 1%positive) "signup" (Some 1%positive) sample_store
    = (res.1, res.2) ∧
  maps (@Track lib (Some 1%positive) "login" (Some 1%positive) res.2).2 = maps res.2 ∧
  maps res.2 !! 1%positive = Some (<["token" := VString "tok"]> props).
Proof.
  intros lib props res.
  assert (clients sample_store !! 1%positive = Some sample_client) as H1
    by (vm_compute; reflexivity).
  assert (maps sample_store !! 1%positive = Some props) as H2
    by (vm_compute; reflexivity).
  assert (@Track lib (Some 1%positive) "signup" (Some 1%positive) sample_store
            = (res.1, res.2)) as H3 by (vm_compute; reflexivity).
  split; [exact H1|]. split; [exact H2|]. split; [exact H3|].
  exact (@Track_again_keeps_map lib 1%positive sample_client 1%positive props
           "signup" "login" sample_store res.1 res.2 H1 H2 H3).
Defined.



Lemma earlier_response_body_decides_result_witness :
  let lib := reference (stub (GetResponse "" None)) in
  let op := CallProfileUnset "u1" (Some ["Days Purchased"]) in
  let σ' := (@Earlier.call lib (Some 1%positive) op earlier_sample_store).2 in
  let url := default "" (last (Earlier.requests σ')) in
  let r := Some ErrUnexpectedEngageResponse in
  @Earlier.call lib (Some 1%positive) op earlier_sample_store = (Returned r, σ') ∧
  Earlier.requests σ' = Earlier.requests earlier_sample_store ++ [url] ∧
  @http_Get lib (Earlier.requests earlier_sample_store) url = GetResponse "" None ∧
  (r = None ↔ "" = "1") ∧
  ("" ≠ "1" → r = Some ErrUnexpectedEngageResponse).
Proof.
  intros lib op σ' url r.
  assert (@Earlier.call lib (Some 1%positive) op earlier_sample_store
            = (Returned r, σ')) as H1 by (vm_compute; reflexivity).
  assert (Earlier.requests σ' = Earlier.requests earlier_sample_store ++ [url])
    as H2 by (vm_compute; reflexivity).
  assert (@http_Get lib (Earlier.requests earlier_sample_store) url
            = GetResponse "" None) as H3 by reflexivity.
  split; [exact H1|]. split; [exact H2|]. split; [exact H3|].
  exact (@earlier_response_body_decides_result lib op (Some 1%positive)
           earlier_sample_store r σ' url "" H1 H2 H3).
Defined.



Section override_address.
Context {lib : Library}.

(** [Track] and the alias operation do not look at the override
    address: with any other address in the client they return the same
    result, make the same request and leave the same maps. *)
Theorem events_ignore_override_address op l c ip σ :
  is_profile op = false →
  clients σ !! l = Some c →
  let σip := MkState (<[l := MkMixpanel (Token c) (BaseURL c) ip]> (clients σ))
                     (maps σ) (requests σ) in
  (call (Some l) op σip).1 = (call (Some l) op σ).1 ∧
  requests (call (Some l) op σip).2 = requests (call (Some l) op σ).2 ∧
  maps (call (Some l) op σip).2 = maps (call (Some l) op σ).2.
Proof.
  intros Hop Hc σip.
  set (cip := MkMixpanel (Token c) (BaseURL c) ip).
  assert (clients σip !! l = Some cip) as Hcip by apply lookup_insert_eq.
  destruct (decide (reaches_get σ op)) as [Hget|Hget].
  - assert (reaches_get σip op) as Hgetip by by destruct op.
    pose proof (call_cases op l c σ Hc Hget) as H1.
    pose proof (call_cases op l cip σip Hcip Hgetip) as H2.
    cbv zeta in H1, H2.
    assert (request_data cip σip op = request_data c σ op) as Hdata
      by by destruct op.
    assert (maps (prepared cip σip op) = maps (prepared c σ op)) as Hmaps
      by by destruct op as [? [?|]| | | | | | | |].
    rewrite Hdata in H2.
    destruct (json_Marshal _); rewrite H1, H2; simpl;
      by rewrite ?prepared_requests, ?Hmaps.
  - assert (¬ reaches_get σip op) as Hgetip by by destruct op.
    by rewrite (call_stops op l c σ Hc Hget), (call_stops op l cip σip Hcip Hgetip).
Qed.

End override_address.

Lemma events_ignore_override_address_witness :
  let lib := reference (stub (GetResponse "1" None)) in
  let op := CallTrack "signup" (Some 1%positive) in
  let σip := MkState (<[1%positive := MkMixpanel (Token sample_client)
                                       (BaseURL sample_client) "192.168.0.7"]>
                        (clients sample_store))
                     (maps sample_store) (requests sample_store) in
  is_profile op = false ∧
  clients sample_store !! 1%positive = Some sample_client ∧
  (@call lib (Some 1%positive) op σip).1
    = (@call lib (Some 1%positive) op sample_store).1 ∧
  requests (@call lib (Some 1%positive) op σip).2
    = requests (@call lib (Some 1%positive) op sample_store).2 ∧
  maps (@call lib (Some 1%positive) op σip).2
    = maps (@call lib (Some 1%positive) op sample_store).2.
Proof.
  intros lib op σip.
  assert (is_profile op = false) as H0 by reflexivity.
  assert (clients sample_store !! 1%positive = Some sample_client) as H1
    by (vm_compute; reflexivity).
  split; [exact H0|]. split; [exact H1|].
  exact (@events_ignore_override_address lib op 1%positive sample_client
           "192.168.0.7" sample_store H0 H1).
Defined.
